(** * nav2 MPPI controller utilities and DriveOnHeading configuration

    A shallow embedding of the path and control-sequence helpers of
    [nav2_mppi_controller/tools/utils.hpp] (namespace [mppi::utils]) and of
    [nav2_behaviors::DriveOnHeading::onConfigure], followed by the
    properties established about them.

    Conventions of the embedding:
    - C++ [float] and [double] values are elements of two abstract carriers
      [F] and [D], each with its arithmetic and comparisons ([FloatOps]);
      the conversions between them are explicit ([narrow], [widen]).
      Nothing is assumed about the arithmetic.  The few order and sign
      facts that some statements need are collected in [FloatOrder] and
      [FloatSign]; they hold for IEEE-754 values, NaN included.
    - [std::vector] and Eigen arrays are lists, read and written by index.
    - arguments taken by non-const reference are passed in and returned;
      where it matters which object a reference is bound to, path objects
      live in a store of cells. *)

From Stdlib Require Import ZArith QArith Qabs Qround Lia.
From Stdlib Require PrimFloat Uint63.
From stdpp Require Import base option list gmap strings.

Local Open Scope Z_scope.
Local Open Scope nat_scope.

(** ** Floating-point interface *)

Class FloatOps (T : Type) : Type := {
  fadd : T → T → T;
  fsub : T → T → T;
  fmul : T → T → T;
  fdiv : T → T → T;
  fneg : T → T;
  fabs : T → T;                 (* std::abs / std::fabs *)
  flt : T → T → bool;           (* operator<  *)
  fle : T → T → bool;           (* operator<= *)
  fpow2 : T → T;                (* std::pow(x, 2) *)
  flit : Q → T                  (* a decimal literal such as 0.0f, 231.0f, 2.5 *)
}.

(** Order facts used by the comparison-dependent statements.  [fle a a]
    holds exactly for the values that are not NaN. *)
Class FloatOrder (T : Type) `{FloatOps T} : Prop := {
  flt_fle a b : flt a b = true → fle a b = true;
  fle_refl_l a b : fle a b = true → fle a a = true;
  fle_refl_r a b : fle a b = true → fle b b = true;
  fle_not_flt a b : fle a b = true → flt b a = false;
  not_flt_fle a b : flt a b = false → fle a a = true → fle b b = true → fle b a = true;
  flt_cotrans c m a : flt c m = true → flt a m = false → flt a c = false;
  fle_flt_trans a b c : fle a b = true → flt b c = true → flt a c = true
}.

(** Sign facts of [std::abs] and of negation: the absolute value of a
    value that compares below or above zero is above zero, and the
    negation of a value above zero is below zero.  They hold for
    IEEE-754 values; a zero or a NaN satisfies no premise. *)
Class FloatSign (T : Type) `{FloatOps T} : Prop := {
  fabs_positive (x : T) :
    flt x (flit 0%Q) = true ∨ flt (flit 0%Q) x = true → flt (flit 0%Q) (fabs x) = true;
  fneg_negative (x : T) :
    flt (flit 0%Q) x = true → flt (fneg x) (flit 0%Q) = true
}.

(** Conversions between the two precisions and the one constant of
    [std::numeric_limits<float>] the code uses. *)
Class Precisions (F D : Type) : Type := {
  narrow : D → F;               (* double -> float conversion *)
  widen : F → D;                (* float -> double promotion *)
  FLT_MAX : F                   (* std::numeric_limits<float>::max() *)
}.

(** std::min and std::max as the standard defines them:
    [min(a,b) = (b < a) ? b : a] and [max(a,b) = (a < b) ? b : a]. *)
Definition std_min {T} `{FloatOps T} (a b : T) : T := if flt b a then b else a.
Definition std_max {T} `{FloatOps T} (a b : T) : T := if flt a b then b else a.

(** ** Messages and containers *)

(** geometry_msgs: Point, Quaternion, Pose, Vector3, Twist; std_msgs Header. *)
Record Point (D : Type) := mkPoint { point_x : D; point_y : D; point_z : D }.
Record Quaternion (D : Type) :=
  mkQuaternion { quat_x : D; quat_y : D; quat_z : D; quat_w : D }.
Record Pose (D : Type) := mkPose { position : Point D; orientation : Quaternion D }.
Record Vector3 (D : Type) := mkVector3 { vec_x : D; vec_y : D; vec_z : D }.
Record Twist (D : Type) := mkTwist { linear : Vector3 D; angular : Vector3 D }.
Record Header := mkHeader { stamp : Z; frame_id : string }.
Record PoseStamped (D : Type) := mkPoseStamped { ps_header : Header; pose : Pose D }.

(** nav_msgs::msg::Path *)
Record NavPath (D : Type) := mkNavPath { header : Header; poses : list (PoseStamped D) }.

Arguments mkPoint {D}.
Arguments point_x {D}.
Arguments point_y {D}.
Arguments point_z {D}.
Arguments mkQuaternion {D}.
Arguments quat_x {D}.
Arguments quat_y {D}.
Arguments quat_z {D}.
Arguments quat_w {D}.
Arguments mkPose {D}.
Arguments position {D}.
Arguments orientation {D}.
Arguments mkVector3 {D}.
Arguments vec_x {D}.
Arguments vec_y {D}.
Arguments vec_z {D}.
Arguments mkTwist {D}.
Arguments linear {D}.
Arguments angular {D}.
Arguments mkPoseStamped {D}.
Arguments ps_header {D}.
Arguments pose {D}.
Arguments mkNavPath {D}.
Arguments header {D}.
Arguments poses {D}.

(** Modelled from the spec: models::Path, "ordered sequence of 2D points
    with heading"; the declaration (models/path.hpp) is not among the
    sources.  Three Eigen::ArrayXf of one length. *)
Record Path (F : Type) := mkPath { path_x : list F; path_y : list F; path_yaws : list F }.
Arguments mkPath {F}.
Arguments path_x {F}.
Arguments path_y {F}.
Arguments path_yaws {F}.

(** A dense two-dimensional Eigen array (Eigen::ArrayXXf) in Eigen's
    default column-major storage: coefficient (i, j) is stored at offset
    [j * rows + i] of [arr_data]. *)
Record ArrayXX (F : Type) := mkArrayXX { arr_rows : nat; arr_cols : nat; arr_data : list F }.
Arguments mkArrayXX {F}.
Arguments arr_rows {F}.
Arguments arr_cols {F}.
Arguments arr_data {F}.

Definition arr_wf {F} (e : ArrayXX F) : Prop :=
  length (arr_data e) = arr_rows e * arr_cols e.
Definition arr_size {F} (e : ArrayXX F) : nat := arr_rows e * arr_cols e.
Definition arr_coeff {F} (e : ArrayXX F) (i j : nat) : option F :=
  arr_data e !! (j * arr_rows e + i).
Definition arr_col {F} (e : ArrayXX F) (j : nat) : list F :=
  take (arr_rows e) (drop (j * arr_rows e) (arr_data e)).

(** Modelled from the spec: models::Trajectories, "N x T array of simulated
    poses (x, y, heading)", one row per sampled control sequence; the
    declaration (models/trajectories.hpp) is not among the sources. *)
Record Trajectories (F : Type) :=
  mkTrajectories { traj_x : ArrayXX F; traj_y : ArrayXX F; traj_yaws : ArrayXX F }.
Arguments mkTrajectories {F}.
Arguments traj_x {F}.
Arguments traj_y {F}.
Arguments traj_yaws {F}.

(** Modelled from the spec: CriticData (the spec's CriticContext), the
    per-pass bundle of trajectories, path, goal pose and the two lazily
    computed caches, each "explicitly tagged computed/not-computed"; the
    declaration (critic_data.hpp) is not among the sources. *)
Record CriticData (F D : Type) := mkCriticData {
  trajectories : Trajectories F;
  path : Path F;
  goal : Pose D;
  path_pts_valid : option (list bool);
  furthest_reached_path_point : option nat
}.
Arguments mkCriticData {F D}.
Arguments trajectories {F D}.
Arguments path {F D}.
Arguments goal {F D}.
Arguments path_pts_valid {F D}.
Arguments furthest_reached_path_point {F D}.

(** Modelled from the spec: the cost-grid query interface, "world-to-grid
    conversion, per-cell cost lookup, named constants for
    lethal/inflated/unknown cost values, and whether unknown cells are
    treated as traversable"; Costmap2D, Costmap2DROS and cost_values.hpp
    are not among the sources.  [worldToMap] fails outside the grid. *)
Record Costmap2D (D : Type) := mkCostmap2D {
  worldToMap : D → D → option (nat * nat);
  getCost : nat → nat → Z
}.
Arguments mkCostmap2D {D}.
Arguments worldToMap {D}.
Arguments getCost {D}.

Record Costmap2DROS (D : Type) := mkCostmap2DROS {
  getCostmap : Costmap2D D;
  isTrackingUnknown : bool
}.
Arguments mkCostmap2DROS {D}.
Arguments getCostmap {D}.
Arguments isTrackingUnknown {D}.

Class CostValues : Type := {
  LETHAL_OBSTACLE : Z;
  INSCRIBED_INFLATED_OBSTACLE : Z;
  NO_INFORMATION : Z
}.

(** Modelled from the spec: the goal checker, "a goal-tolerance accessor
    (position and velocity tolerance)"; nav2_core/goal_checker.hpp is not
    among the sources.  The two fields are what [getTolerances] writes
    into its output arguments. *)
Record GoalChecker (D : Type) := mkGoalChecker {
  pose_tolerance : Pose D;
  velocity_tolerance : Twist D
}.
Arguments mkGoalChecker {D}.
Arguments pose_tolerance {D}.
Arguments velocity_tolerance {D}.

(** Modelled from the spec: models::Control, models::ControlSequence and
    the fields of models::OptimizerSettings the filter reads; their
    declarations are not among the sources.  The control history is a
    std::array of exactly four controls. *)
Record Control (F : Type) := mkControl { ctrl_vx : F; ctrl_vy : F; ctrl_wz : F }.
Arguments mkControl {F}.
Arguments ctrl_vx {F}.
Arguments ctrl_vy {F}.
Arguments ctrl_wz {F}.

Record ControlSequence (F : Type) :=
  mkControlSequence { cs_vx : list F; cs_vy : list F; cs_wz : list F }.
Arguments mkControlSequence {F}.
Arguments cs_vx {F}.
Arguments cs_vy {F}.
Arguments cs_wz {F}.

Record ControlHistory (F : Type) := mkControlHistory {
  hist_0 : Control F; hist_1 : Control F; hist_2 : Control F; hist_3 : Control F
}.
Arguments mkControlHistory {F}.
Arguments hist_0 {F}.
Arguments hist_1 {F}.
Arguments hist_2 {F}.
Arguments hist_3 {F}.

Record OptimizerSettings := mkOptimizerSettings { shift_control_sequence : bool }.

(** The outcome of a call that may throw. *)
Inductive result (A : Type) : Type :=
| Ok (a : A)
| Throw (what : string).
Arguments Ok {A}.
Arguments Throw {A}.

(** Reads out of range are undefined in the source; here they yield 0. *)
#[global] Instance float_inhabited {T : Type} `{FloatOps T} : Inhabited T :=
  populate (flit 0%Q).
#[global] Instance Point_inhabited {D : Type} `{FloatOps D} : Inhabited (Point D) :=
  populate (mkPoint inhabitant inhabitant inhabitant).

(** ** The embedding of mppi::utils *)

Section Utils.
Context {F D : Type} {opsF : FloatOps F} {opsD : FloatOps D} {prec : Precisions F D}.
Context {cost_values : CostValues}.

(** tf2::Quaternion::setRPY followed by reading the four components; the
    trigonometry is left abstract. *)
Context (setRPY : D → D → D → Quaternion D).

(** *** clamp *)

Definition clamp (lower_bound upper_bound input : F) : F :=
  std_min upper_bound (std_max input lower_bound).

(** *** getLastPathPose, getCriticGoal *)

(** [const unsigned int path_last_idx = path.x.size() - 1]. *)
Definition path_last_idx (path : Path F) : nat :=
  Z.to_nat ((Z.of_nat (length (path_x path)) - 1) mod 2 ^ 32).

Definition getLastPathPose (path : Path F) : Pose D :=
  let last_orientation := path_yaws path !!! path_last_idx path in
  let pose_orientation := setRPY (flit 0%Q) (flit 0%Q) (widen last_orientation) in
  {| position := {| point_x := widen (path_x path !!! path_last_idx path);
                    point_y := widen (path_y path !!! path_last_idx path);
                    point_z := flit 0%Q |};
     orientation := {| quat_x := quat_x pose_orientation;
                       quat_y := quat_y pose_orientation;
                       quat_z := quat_z pose_orientation;
                       quat_w := quat_w pose_orientation |} |}.

Definition getCriticGoal (data : CriticData F D) (enforce_path_inversion : bool) : Pose D :=
  if enforce_path_inversion then getLastPathPose (path data) else goal data.

(** *** withinPositionGoalTolerance (both overloads) *)

(** The overload taking a goal checker pointer; [None] is the null pointer. *)
Definition withinPositionGoalTolerance_checker
    (goal_checker : option (GoalChecker D)) (robot goal : Pose D) : bool :=
  match goal_checker with
  | Some checker =>
      let tolerance := point_x (position (pose_tolerance checker)) in
      let pose_tolerance_sq := fmul tolerance tolerance in
      let dx := fsub (point_x (position robot)) (point_x (position goal)) in
      let dy := fsub (point_y (position robot)) (point_y (position goal)) in
      let dist_sq := fadd (fmul dx dx) (fmul dy dy) in
      if flt dist_sq pose_tolerance_sq then true else false
  | None => false
  end.

(** The overload taking the tolerance as a float: the distance is a
    double, the squared tolerance a float promoted for the comparison. *)
Definition withinPositionGoalTolerance_float
    (pose_tolerance : F) (robot goal : Pose D) : bool :=
  let dist_sq :=
    fadd (fpow2 (fsub (point_x (position goal)) (point_x (position robot))))
         (fpow2 (fsub (point_y (position goal)) (point_y (position robot)))) in
  let pose_tolerance_sq := fmul pose_tolerance pose_tolerance in
  if flt dist_sq (widen pose_tolerance_sq) then true else false.

(** The squared planar distances the two overloads compare. *)
Definition dist_sq_checker (robot goal : Pose D) : D :=
  let dx := fsub (point_x (position robot)) (point_x (position goal)) in
  let dy := fsub (point_y (position robot)) (point_y (position goal)) in
  fadd (fmul dx dx) (fmul dy dy).

Definition dist_sq_float (robot goal : Pose D) : D :=
  fadd (fpow2 (fsub (point_x (position goal)) (point_x (position robot))))
       (fpow2 (fsub (point_y (position goal)) (point_y (position robot)))).

(** *** findPathFurthestReachedPoint *)

(** [traj_x] and [traj_y]: the last column of the trajectory arrays. *)
Definition last_col (e : ArrayXX F) : list F :=
  arr_col e (Z.to_nat (Z.of_nat (arr_cols e) - 1)).

(** [dists(i, j)]: squared distance between the final point of trajectory
    [i] and path point [j]. *)
Definition dists (data : CriticData F D) (i j : nat) : F :=
  let dx := fsub (path_x (path data) !!! j) (last_col (traj_x (trajectories data)) !!! i) in
  let dy := fsub (path_y (path data) !!! j) (last_col (traj_y (trajectories data)) !!! i) in
  fadd (fmul dx dx) (fmul dy dy).

(** The inner loop over [j], started at [j] with [remaining] iterations
    to go; the state is [(min_distance_by_path, min_id_by_path)]. *)
Fixpoint nearest_scan (dist : nat → F) (j remaining : nat)
    (min_distance_by_path : F) (min_id_by_path : nat) : F * nat :=
  match remaining with
  | O => (min_distance_by_path, min_id_by_path)
  | S remaining' =>
      let cur_dist := dist j in
      if flt cur_dist min_distance_by_path
      then nearest_scan dist (S j) remaining' cur_dist j
      else nearest_scan dist (S j) remaining' min_distance_by_path min_id_by_path
  end.

(** One iteration of the outer loop: the value of [min_id_by_path] when
    the inner loop, started at the cursor [max_id_by_trajectories], ends. *)
Definition row_min_id (data : CriticData F D) (i max_id_by_trajectories : nat) : nat :=
  let n_cols := length (path_x (path data)) in
  snd (nearest_scan (dists data i) max_id_by_trajectories
         (n_cols - max_id_by_trajectories) FLT_MAX 0).

(** The outer loop over the rows, started at row [i]. *)
Fixpoint rows_scan (data : CriticData F D) (i remaining max_id_by_trajectories : nat) : nat :=
  match remaining with
  | O => max_id_by_trajectories
  | S remaining' =>
      rows_scan data (S i) remaining'
        (Nat.max max_id_by_trajectories (row_min_id data i max_id_by_trajectories))
  end.

Definition findPathFurthestReachedPoint (data : CriticData F D) : nat :=
  let n_rows := arr_rows (traj_x (trajectories data)) in
  rows_scan data 0 n_rows 0.

Definition setPathFurthestPointIfNotSet (data : CriticData F D) : CriticData F D :=
  match furthest_reached_path_point data with
  | Some _ => data
  | None =>
      {| trajectories := trajectories data; path := path data; goal := goal data;
         path_pts_valid := path_pts_valid data;
         furthest_reached_path_point := Some (findPathFurthestReachedPoint data) |}
  end.

(** The cursor ([max_id_by_trajectories]) with which the outer loop enters
    row [i]. *)
Definition cursor_at (data : CriticData F D) (i : nat) : nat := rows_scan data 0 i 0.


(** *** findPathCosts, setPathCostsIfNotSet *)

(** [const size_t path_segments_count = data.path.x.size() - 1]: the
    signed difference converted to a 64-bit unsigned value. *)
Definition path_segments_count (data : CriticData F D) : Z :=
  (Z.of_nat (length (path_x (path data))) - 1) mod 2 ^ 64.

(** The body of the loop for the path point [(px, py)]: the value stored
    in [path_pts_valid] for its segment. *)
Definition segment_valid (costmap_ros : Costmap2DROS D) (px py : F) : bool :=
  let costmap := getCostmap costmap_ros in
  let tracking_unknown := isTrackingUnknown costmap_ros in
  match worldToMap costmap (widen px) (widen py) with
  | None => false
  | Some (map_x, map_y) =>
      let cost := getCost costmap map_x map_y in
      if (cost =? LETHAL_OBSTACLE)%Z then false
      else if (cost =? INSCRIBED_INFLATED_OBSTACLE)%Z then false
      else if (cost =? NO_INFORMATION)%Z then (if tracking_unknown then true else false)
      else true
  end.

(** What makes a path point's cell block its segment: the point is outside
    the grid, or its cell is lethal, inscribed-inflated, or unknown while
    unknown space is not tracked. *)
Definition segment_blocked (costmap_ros : Costmap2DROS D) (px py : F) : Prop :=
  match worldToMap (getCostmap costmap_ros) (widen px) (widen py) with
  | None => True
  | Some (map_x, map_y) =>
      let cost := getCost (getCostmap costmap_ros) map_x map_y in
      cost = LETHAL_OBSTACLE ∨ cost = INSCRIBED_INFLATED_OBSTACLE ∨
      (cost = NO_INFORMATION ∧ isTrackingUnknown costmap_ros = false)
  end.

Fixpoint findPathCosts_loop (data : CriticData F D) (costmap_ros : Costmap2DROS D)
    (idx remaining : nat) (valid : list bool) : list bool :=
  match remaining with
  | O => valid
  | S remaining' =>
      findPathCosts_loop data costmap_ros (S idx) remaining'
        (<[idx := segment_valid costmap_ros (path_x (path data) !!! idx)
                                             (path_y (path data) !!! idx)]> valid)
  end.

(** The function has no throw of its own and the vector constructor does
    not check the count, so the call always returns.  On an empty path the
    count wraps to [2 ^ 64 - 1] and the loop reads outside the path
    arrays, which the source leaves undefined; the properties of the mask
    are stated for paths of at least one point. *)
Definition findPathCosts (data : CriticData F D) (costmap_ros : Costmap2DROS D)
    : result (CriticData F D) :=
  let count := path_segments_count data in
  let valid := replicate (Z.to_nat count) false in
  Ok {| trajectories := trajectories data; path := path data; goal := goal data;
        path_pts_valid :=
          Some (findPathCosts_loop data costmap_ros 0 (Z.to_nat count) valid);
        furthest_reached_path_point := furthest_reached_path_point data |}.

Definition setPathCostsIfNotSet (data : CriticData F D) (costmap_ros : Costmap2DROS D)
    : result (CriticData F D) :=
  match path_pts_valid data with
  | Some _ => Ok data
  | None => findPathCosts data costmap_ros
  end.

(** *** savitskyGolayFilter *)

(** Savitzky-Golay quadratic 9-point coefficients, each divided by 231. *)
Definition filter : list F :=
  (λ c, fdiv (flit c) (flit 231%Q)) <$>
    [(-21)%Q; 14%Q; 39%Q; 54%Q; 59%Q; 54%Q; 39%Q; 14%Q; (-21)%Q].

(** Eigen's [sum()] of the nine products; the additions are taken left
    to right (Eigen leaves the association of the reduction open). *)
Definition array_sum (l : list F) : F :=
  match l with
  | [] => flit 0%Q
  | a :: l' => foldl fadd a l'
  end.

Definition applyFilter (data : list F) : F := array_sum (zip_with fmul data filter).

(** [const unsigned int num_sequences = control_sequence.vx.size() - 1]. *)
Definition num_sequences (control_sequence : ControlSequence F) : nat :=
  Z.to_nat ((Z.of_nat (length (cs_vx control_sequence)) - 1) mod 2 ^ 32).

(** The loop of [applyFilterOverAxis], entered at [idx] with [remaining]
    iterations to go and the nine window variables. *)
Fixpoint applyFilterOverAxis_loop (num_seq : nat) (initial_sequence : list F)
    (idx remaining : nat) (pt_m4 pt_m3 pt_m2 pt_m1 pt pt_p1 pt_p2 pt_p3 pt_p4 : F)
    (sequence : list F) : list F :=
  match remaining with
  | O => sequence
  | S remaining' =>
      let sequence' :=
        <[idx := applyFilter [pt_m4; pt_m3; pt_m2; pt_m1; pt; pt_p1; pt_p2; pt_p3; pt_p4]]>
          sequence in
      let pt_p4' :=
        if idx + 5 <? num_seq
        then initial_sequence !!! (idx + 5)
        else initial_sequence !!! num_seq in
      applyFilterOverAxis_loop num_seq initial_sequence (S idx) remaining'
        pt_m3 pt_m2 pt_m1 pt pt_p1 pt_p2 pt_p3 pt_p4 pt_p4' sequence'
  end.

Definition applyFilterOverAxis (num_seq : nat) (sequence initial_sequence : list F)
    (hist_0 hist_1 hist_2 hist_3 : F) : list F :=
  applyFilterOverAxis_loop num_seq initial_sequence 0 num_seq
    hist_0 hist_1 hist_2 hist_3
    (initial_sequence !!! 0) (initial_sequence !!! 1) (initial_sequence !!! 2)
    (initial_sequence !!! 3) (initial_sequence !!! 4)
    sequence.

(** Everything below the early return: the three axes are filtered and
    the control history is advanced. *)
Definition filter_trajectories (control_sequence : ControlSequence F)
    (control_history : ControlHistory F) (settings : OptimizerSettings)
    : ControlSequence F * ControlHistory F :=
  let num_seq := num_sequences control_sequence in
  let initial_control_sequence := control_sequence in
  let vx := applyFilterOverAxis num_seq (cs_vx control_sequence)
              (cs_vx initial_control_sequence)
              (ctrl_vx (hist_0 control_history)) (ctrl_vx (hist_1 control_history))
              (ctrl_vx (hist_2 control_history)) (ctrl_vx (hist_3 control_history)) in
  let vy := applyFilterOverAxis num_seq (cs_vy control_sequence)
              (cs_vy initial_control_sequence)
              (ctrl_vy (hist_0 control_history)) (ctrl_vy (hist_1 control_history))
              (ctrl_vy (hist_2 control_history)) (ctrl_vy (hist_3 control_history)) in
  let wz := applyFilterOverAxis num_seq (cs_wz control_sequence)
              (cs_wz initial_control_sequence)
              (ctrl_wz (hist_0 control_history)) (ctrl_wz (hist_1 control_history))
              (ctrl_wz (hist_2 control_history)) (ctrl_wz (hist_3 control_history)) in
  let offset := if shift_control_sequence settings then 1 else 0 in
  ({| cs_vx := vx; cs_vy := vy; cs_wz := wz |},
   {| hist_0 := hist_1 control_history;
      hist_1 := hist_2 control_history;
      hist_2 := hist_3 control_history;
      hist_3 := {| ctrl_vx := vx !!! offset; ctrl_vy := vy !!! offset;
                   ctrl_wz := wz !!! offset |} |}).

Definition savitskyGolayFilter (control_sequence : ControlSequence F)
    (control_history : ControlHistory F) (settings : OptimizerSettings)
    : ControlSequence F * ControlHistory F :=
  if num_sequences control_sequence <? 20
  then (control_sequence, control_history)
  else filter_trajectories control_sequence control_history settings.

(** The sample the filter window reads at (possibly negative) position
    [k] of an axis: the control history to the left of the sequence, the
    last element to its right. *)
Definition window_sample (num_seq : nat) (initial_sequence : list F)
    (hist_0 hist_1 hist_2 hist_3 : F) (k : Z) : F :=
  if (k =? -4)%Z then hist_0
  else if (k =? -3)%Z then hist_1
  else if (k =? -2)%Z then hist_2
  else if (k =? -1)%Z then hist_3
  else initial_sequence !!! (Nat.min (Z.to_nat k) num_seq).

Definition window_at (num_seq : nat) (initial_sequence : list F)
    (hist_0 hist_1 hist_2 hist_3 : F) (idx : nat) : list F :=
  (λ o, window_sample num_seq initial_sequence hist_0 hist_1 hist_2 hist_3
          (Z.of_nat idx + o)%Z) <$> [-4; -3; -2; -1; 0; 1; 2; 3; 4]%Z.

(** An axis [out] is the filtered [initial_sequence]: every element but
    the last is the filter applied to the window around it, the last
    element is kept. *)
Definition axis_filtered (num_seq : nat) (initial_sequence : list F)
    (hist_0 hist_1 hist_2 hist_3 : F) (out : list F) : Prop :=
  length out = length initial_sequence ∧
  (∀ idx, idx < num_seq →
     out !! idx
     = Some (applyFilter
               (window_at num_seq initial_sequence hist_0 hist_1 hist_2 hist_3 idx))) ∧
  out !! num_seq = initial_sequence !! num_seq.

(** *** findFirstPathInversion, removePosesAfterFirstInversion *)

Definition position_at (path : NavPath D) (idx : nat) : Point D :=
  default inhabitant (position ∘ pose <$> poses path !! idx).

(** The dot product of OA and AB around pose [idx]; the differences are
    taken on doubles and stored in floats. *)
Definition dot_product_at (path : NavPath D) (idx : nat) : F :=
  let oa_x := narrow (fsub (point_x (position_at path idx))
                           (point_x (position_at path (idx - 1)))) in
  let oa_y := narrow (fsub (point_y (position_at path idx))
                           (point_y (position_at path (idx - 1)))) in
  let ab_x := narrow (fsub (point_x (position_at path (idx + 1)))
                           (point_x (position_at path idx))) in
  let ab_y := narrow (fsub (point_y (position_at path (idx + 1)))
                           (point_y (position_at path idx))) in
  fadd (fmul oa_x ab_x) (fmul oa_y ab_y).

(** A cusp at pose [idx]: the dot product computed there is negative. *)
Definition cusp_at (path : NavPath D) (idx : nat) : Prop :=
  flt (dot_product_at path idx) (flit 0%Q) = true.

Fixpoint inversion_scan (path : NavPath D) (idx remaining : nat) : option nat :=
  match remaining with
  | O => None
  | S remaining' =>
      if flt (dot_product_at path idx) (flit 0%Q)
      then Some (idx + 1)
      else inversion_scan path (S idx) remaining'
  end.

Definition findFirstPathInversion (path : NavPath D) : nat :=
  let size := length (poses path) in
  if size <? 3 then size
  else
    match inversion_scan path 1 (size - 1 - 1) with
    | Some first_after_inversion => first_after_inversion
    | None => size
    end.

(** The path is taken by reference: the function returns the path the
    caller sees afterwards together with the returned index. *)
Definition removePosesAfterFirstInversion (path : NavPath D) : NavPath D * nat :=
  let cropped_path := path in
  let first_after_inversion := findFirstPathInversion cropped_path in
  if first_after_inversion =? length (poses path) then (path, 0)
  else
    let cropped_path :=
      {| header := header cropped_path;
         poses := take first_after_inversion (poses cropped_path) |} in
    (cropped_path, first_after_inversion).

(** Detection on a store of path objects: it only reads the object the
    reference [ref] is bound to. *)
Definition findFirstPathInversion_ref
    (store : gmap nat (NavPath D)) (ref : nat) : option (gmap nat (NavPath D) * nat) :=
  match store !! ref with
  | Some path => Some (store, findFirstPathInversion path)
  | None => None
  end.


(** The body of [removePosesAfterFirstInversion] on a store of path
    objects, statement by statement: [path] is the cell the reference
    parameter is bound to and [cropped_path] the cell of the local
    variable, unused before the call and released when it returns. *)
Definition removePosesAfterFirstInversion_at
    (store : gmap nat (NavPath D)) (path : nat) : option (gmap nat (NavPath D) * nat) :=
  let cropped_path := fresh (dom store) in
  (* nav_msgs::msg::Path cropped_path = path; *)
  object ← store !! path;
  let store := <[cropped_path := object]> store in
  (* first_after_inversion = findFirstPathInversion(cropped_path); *)
  '(store, first_after_inversion) ← findFirstPathInversion_ref store cropped_path;
  (* if (first_after_inversion == path.poses.size()) return 0u; *)
  object ← store !! path;
  if first_after_inversion =? length (poses object)
  then Some (delete cropped_path store, 0)
  else
    (* cropped_path.poses.erase(begin + first_after_inversion, end); *)
    cropped ← store !! cropped_path;
    let store :=
      <[cropped_path := {| header := header cropped;
                           poses := take first_after_inversion (poses cropped) |}]>
        store in
    (* path = cropped_path; *)
    cropped ← store !! cropped_path;
    let store := <[path := cropped]> store in
    Some (delete cropped_path store, first_after_inversion).

(** Modelled from the spec: "a working copy may be truncated at the first
    detected direction reversal before being used by this pass - the
    original is never mutated".  The path supplied for the pass is the
    object in cell [original]; it is copied into the cell [working], and
    detection and truncation run on the working copy.  The code that
    prepares the pass is not among the sources. *)
Definition truncate_working_copy
    (store : gmap nat (NavPath D)) (original working : nat)
    : option (gmap nat (NavPath D) * nat) :=
  supplied ← store !! original;
  removePosesAfterFirstInversion_at (<[working := supplied]> store) working.

(** *** shiftColumnsByOnePlace *)

(** Pointers into [e.data()] are offsets. [*(dst) = *(src)]: *)
Definition copy_elem (data : list F) (src dst : Z) : list F :=
  <[Z.to_nat dst := data !!! Z.to_nat src]> data.

(** [std::copy(first, first + n, d_first)], element by element. *)
Fixpoint std_copy (data : list F) (first d_first : Z) (n : nat) : list F :=
  match n with
  | O => data
  | S n' => std_copy (copy_elem data first d_first) (first + 1) (d_first + 1) n'
  end.

(** [while (start_ptr != end_ptr) { body; start_ptr -= step; }]; [None]
    when the fuel does not suffice to reach [end_ptr]. *)
Fixpoint shift_while (fuel : nat) (body : Z → list F → list F) (step : Z)
    (start_ptr end_ptr : Z) (data : list F) : option (Z * list F) :=
  match fuel with
  | O => None
  | S fuel' =>
      if (start_ptr =? end_ptr)%Z then Some (start_ptr, data)
      else shift_while fuel' body step (start_ptr - step) end_ptr (body start_ptr data)
  end.

Definition shiftColumnsByOnePlace (e : ArrayXX F) (direction : Z)
    : option (result (ArrayXX F)) :=
  let size := Z.of_nat (arr_size e) in
  let rows := Z.of_nat (arr_rows e) in
  let cols := Z.of_nat (arr_cols e) in
  let fuel := S (arr_size e) in
  let with_data data :=
    Ok {| arr_rows := arr_rows e; arr_cols := arr_cols e; arr_data := data |} in
  if (size =? 1)%Z then Some (Ok e)
  else if negb (Z.abs direction =? 1)%Z
  then Some (Throw "Invalid direction, only 1 and -1 are valid values.")
  else if ((cols =? 1)%Z || (rows =? 1)%Z) && (1 <? size)%Z then
    let start_ptr := if (direction =? 1)%Z then (size - 2)%Z else 1%Z in
    let end_ptr := if (direction =? 1)%Z then 0%Z else (size - 1)%Z in
    let body p data := copy_elem data p (p + direction)%Z in
    match shift_while fuel body direction start_ptr end_ptr (arr_data e) with
    | Some (start_ptr, data) => Some (with_data (body start_ptr data))
    | None => None
    end
  else
    let start_ptr := if (direction =? 1)%Z then (size - 2 * rows)%Z else rows in
    let end_ptr := if (direction =? 1)%Z then 0%Z else (size - rows)%Z in
    let span := rows in
    let body p data := std_copy data p (p + direction * span)%Z (Z.to_nat span) in
    match shift_while fuel body (direction * span)%Z start_ptr end_ptr (arr_data e) with
    | Some (start_ptr, data) => Some (with_data (body start_ptr data))
    | None => None
    end.

(** What the body of the loop does at block [b] when shifting right
    (towards higher offsets) and when shifting left. *)
Definition copies_right (body : Z → list F → list F) (span L : nat) : Prop :=
  ∀ (b : nat) (cur : list F), length cur = L → (b + 2) * span ≤ L →
    length (body (Z.of_nat (b * span)) cur) = L ∧
    ∀ i, body (Z.of_nat (b * span)) cur !! i
         = if decide ((b + 1) * span ≤ i < (b + 2) * span)
           then cur !! (i - span) else cur !! i.

Definition copies_left (body : Z → list F → list F) (span L : nat) : Prop :=
  ∀ (b : nat) (cur : list F), length cur = L → 1 ≤ b → (b + 1) * span ≤ L →
    length (body (Z.of_nat (b * span)) cur) = L ∧
    ∀ i, body (Z.of_nat (b * span)) cur !! i
         = if decide ((b - 1) * span ≤ i < b * span)
           then cur !! (i + span) else cur !! i.

(** The offset whose old content ends up at offset [i] when blocks of
    [span] elements of a buffer of [L] elements move by one block. *)
Definition shifted_offset (span L : nat) (direction : Z) (i : nat) : nat :=
  if (direction =? 1)%Z
  then (if decide (span ≤ i) then i - span else i)
  else (if decide (i + span < L) then i + span else i).

(** The column (or, in a single column, the entry) whose old content
    ends up at position [j] of [n]: the neighbour on the left for
    direction 1, on the right for direction -1, and [j] itself at the
    border. *)
Definition shift_source (n : nat) (direction : Z) (j : nat) : nat :=
  if (direction =? 1)%Z then j - 1
  else (if decide (j + 1 < n) then j + 1 else j).

End Utils.

(** ** The embedding of nav2_behaviors::DriveOnHeading::onConfigure *)

Inductive Severity : Type := INFO | WARN | ERROR.

(** Modelled from the spec: the node's parameter interface, one of the
    external collaborators ("parameter declaration and dynamic
    reconfiguration plumbing"); rclcpp and nav2_ros_common are not among
    the sources.  A declaration takes the value the configuration
    supplies for the name, or else the default; a lookup of a declared
    parameter yields its value and leaves the variable alone otherwise.
    Only double-valued parameters are represented. *)
Record Node (D : Type) := mkNode {
  parameter_overrides : gmap string D;
  parameters : gmap string D
}.
Arguments mkNode {D}.
Arguments parameter_overrides {D}.
Arguments parameters {D}.

Definition declare_parameter_if_not_declared {D} (node : Node D)
    (name : string) (default_value : D) : Node D :=
  match parameters node !! name with
  | Some _ => node
  | None =>
      {| parameter_overrides := parameter_overrides node;
         parameters :=
           <[name := default default_value (parameter_overrides node !! name)]>
             (parameters node) |}
  end.

Definition get_parameter {D} (node : Node D) (name : string) (variable : D) : D :=
  default variable (parameters node !! name).

(** The members of the behavior that [onConfigure] reads or writes;
    [node_] is the weak pointer ([None] when it cannot be locked) and
    [logger_] collects the messages logged, oldest first. *)
Record DriveOnHeading (D : Type) := mkDriveOnHeading {
  node_ : option (Node D);
  behavior_name_ : string;
  logger_ : list (Severity * string);
  simulate_ahead_time_ : D;
  acceleration_limit_ : D;
  deceleration_limit_ : D;
  minimum_speed_ : D
}.
Arguments mkDriveOnHeading {D}.
Arguments node_ {D}.
Arguments behavior_name_ {D}.
Arguments logger_ {D}.
Arguments simulate_ahead_time_ {D}.
Arguments acceleration_limit_ {D}.
Arguments deceleration_limit_ {D}.
Arguments minimum_speed_ {D}.

Section DriveOnHeading.
Context {D : Type} {opsD : FloatOps D}.

Definition limits_message : string :=
  "DriveOnHeading: acceleration_limit and deceleration_limit must be positive and negative respectively".

(** The four declarations at the top of [onConfigure]. *)
Definition declare_parameters (this : DriveOnHeading D) (node : Node D) : Node D :=
  let node := declare_parameter_if_not_declared node
                "simulate_ahead_time" (flit 2%Q) in
  let node := declare_parameter_if_not_declared node
                (behavior_name_ this +:+ ".acceleration_limit") (flit (5 # 2)%Q) in
  let node := declare_parameter_if_not_declared node
                (behavior_name_ this +:+ ".deceleration_limit") (fneg (flit (5 # 2)%Q)) in
  declare_parameter_if_not_declared node
    (behavior_name_ this +:+ ".minimum_speed") (flit (1 # 10)%Q).

(** The limits as read from the node, before the sign check. *)
Definition configured_acceleration_limit (this : DriveOnHeading D) (node : Node D) : D :=
  get_parameter (declare_parameters this node)
    (behavior_name_ this +:+ ".acceleration_limit") (acceleration_limit_ this).

Definition configured_deceleration_limit (this : DriveOnHeading D) (node : Node D) : D :=
  get_parameter (declare_parameters this node)
    (behavior_name_ this +:+ ".deceleration_limit") (deceleration_limit_ this).

(** [x >= 0.0] is [0.0 <= x]. *)
Definition onConfigure (this : DriveOnHeading D) : result (DriveOnHeading D) :=
  match node_ this with
  | None => Throw "Failed to lock node"
  | Some node =>
      let node := declare_parameters this node in
      let simulate_ahead_time :=
        get_parameter node "simulate_ahead_time" (simulate_ahead_time_ this) in
      let acceleration_limit :=
        get_parameter node (behavior_name_ this +:+ ".acceleration_limit")
          (acceleration_limit_ this) in
      let deceleration_limit :=
        get_parameter node (behavior_name_ this +:+ ".deceleration_limit")
          (deceleration_limit_ this) in
      let minimum_speed :=
        get_parameter node (behavior_name_ this +:+ ".minimum_speed")
          (minimum_speed_ this) in
      if fle acceleration_limit (flit 0%Q) || fle (flit 0%Q) deceleration_limit
      then
        Ok {| node_ := Some node;
              behavior_name_ := behavior_name_ this;
              logger_ := logger_ this ++ [(ERROR, limits_message)];
              simulate_ahead_time_ := simulate_ahead_time;
              acceleration_limit_ := fabs acceleration_limit;
              deceleration_limit_ := fneg (fabs deceleration_limit);
              minimum_speed_ := minimum_speed |}
      else
        Ok {| node_ := Some node;
              behavior_name_ := behavior_name_ this;
              logger_ := logger_ this;
              simulate_ahead_time_ := simulate_ahead_time;
              acceleration_limit_ := acceleration_limit;
              deceleration_limit_ := deceleration_limit;
              minimum_speed_ := minimum_speed |}
  end.

End DriveOnHeading.

(** ** More of mppi::utils *)

Section UtilsConversions.
Context {F D : Type} {opsF : FloatOps F} {opsD : FloatOps D} {prec : Precisions F D}.

(** tf2::getYaw, left abstract, and models::Path::reset, which sizes the
    three arrays of a path (models/path.hpp is not among the sources). *)
Context (getYaw : Quaternion D → D) (reset : nat → Path F).

(** *** toTensor *)

(** The loop of [toTensor], entered at [i]; every index it visits is
    inside [path.poses]. *)
Fixpoint toTensor_loop (path : NavPath D) (i remaining : nat) (result : Path F) : Path F :=
  match remaining with
  | O => result
  | S remaining' =>
      match poses path !! i with
      | Some stamped =>
          toTensor_loop path (S i) remaining'
            {| path_x := <[i := narrow (point_x (position (pose stamped)))]> (path_x result);
               path_y := <[i := narrow (point_y (position (pose stamped)))]> (path_y result);
               path_yaws := <[i := narrow (getYaw (orientation (pose stamped)))]>
                              (path_yaws result) |}
      | None => result
      end
  end.

Definition toTensor (path : NavPath D) : Path F :=
  toTensor_loop path 0 (length (poses path)) (reset (length (poses path))).

(** What [reset] is relied on for: three arrays of the requested size. *)
Definition reset_sizes : Prop :=
  ∀ n, length (path_x (reset n)) = n ∧ length (path_y (reset n)) = n ∧
       length (path_yaws (reset n)) = n.

(** *** findClosestPathPt *)

(** The loop of [findClosestPathPt], about to test [i != size]; [None]
    when the scan reads outside [vec] (undefined in the source) or the
    fuel runs out. *)
Fixpoint findClosestPathPt_loop (fuel : nat) (vec : list F) (dist : F)
    (size i : nat) (distim1 : F) : option nat :=
  match fuel with
  | O => None
  | S fuel' =>
      if i =? size then Some (size - 1)
      else
        match vec !! i with
        | None => None
        | Some disti =>
            if flt dist disti
            then
              if (0 <? i) && flt (fsub dist distim1) (fsub disti dist)
              then Some (i - 1)
              else Some i
            else findClosestPathPt_loop fuel' vec dist size (S i) disti
        end
  end.

Definition findClosestPathPt (vec : list F) (dist : F) (init : nat) : option nat :=
  let size := length vec in
  match (if negb (init =? 0) then vec !! init else Some (flit 0%Q)) with
  | None => None
  | Some distim1 => findClosestPathPt_loop (S size) vec dist size (init + 1) distim1
  end.

(** The accumulated distance the scan holds in [distim1] when it looks at
    index [i]: 0 for the very first element, the element before [i]
    otherwise. *)
Definition previous_distance (vec : list F) (i : nat) : F :=
  if i =? 1 then flit 0%Q else default (flit 0%Q) (vec !! (i - 1)).

End UtilsConversions.

(** ** The embedding of the rest of nav2_behaviors::DriveOnHeading *)

(** Equality test and the library functions the run-time code calls, all
    left abstract: [c_abs] is the unqualified [abs] of [isCollisionFree],
    [ftoint] the conversion [static_cast<int>], [fofint] the promotion of
    an [int] operand, [DBL_MAX] is [std::numeric_limits<double>::max()]. *)
Class FloatEq (T : Type) : Type := {
  feq : T → T → bool            (* operator== ; [a != b] is its negation *)
}.

Class FloatMath (T : Type) : Type := {
  fsqrt : T → T;
  fhypot : T → T → T;
  fcos : T → T;
  fsin : T → T;
  c_abs : T → T;
  ftoint : T → Z;
  fofint : Z → T;
  DBL_MAX : T
}.

(** std::clamp(v, lo, hi) as the standard defines it. *)
Definition std_clamp {T} `{FloatOps T} (v lo hi : T) : T :=
  if flt v lo then lo else if flt hi v then hi else v.

Record TwistStamped (D : Type) := mkTwistStamped { ts_header : Header; twist : Twist D }.
Arguments mkTwistStamped {D}.
Arguments ts_header {D}.
Arguments twist {D}.

(** Modelled from the code's uses: the fields of the action goal that
    [onRun] reads (the action definitions are not among the sources);
    durations and times are counts of nanoseconds, whose sign is the
    sign of [seconds()]. *)
Record Goal (D : Type) := mkGoal {
  target : Point D;
  speed : D;
  time_allowance : Z;
  disable_collision_checks : bool
}.
Arguments mkGoal {D}.
Arguments target {D}.
Arguments speed {D}.
Arguments time_allowance {D}.
Arguments disable_collision_checks {D}.

Inductive Status : Type := SUCCEEDED | FAILED | RUNNING.

Inductive ErrorCode : Type := NONE | INVALID_INPUT | TF_ERROR | TIMEOUT | COLLISION_AHEAD.

Record ResultStatus := mkResultStatus {
  status : Status;
  error_code : ErrorCode;
  error_msg : string
}.

(** What a call does to the outside: log entries, [stopRobot()], the
    feedback and the velocity command it publishes. *)
Inductive Effect (D : Type) : Type :=
| Logged (severity : Severity) (message : string)
| StopRobot
| PublishFeedback (distance_traveled : D)
| PublishVelocity (cmd_vel : TwistStamped D).
Arguments Logged {D}.
Arguments StopRobot {D}.
Arguments PublishFeedback {D}.
Arguments PublishVelocity {D}.

(** The collaborators of one call: the two readings of the clock,
    nav2_util::getCurrentPose (given the pose variable it writes, it
    returns its verdict and the variable's new content) and the
    collision checker.  Times are added and subtracted as nanosecond
    counts; the exceptions rclcpp raises on mixed clock types or on
    overflow are not represented. *)
Record Collaborators (D : Type) := mkCollaborators {
  now : Z;
  now_stamp : Z;
  getCurrentPose : PoseStamped D → bool * PoseStamped D;
  checkCollisionFree : Pose D → bool → bool
}.
Arguments mkCollaborators {D}.
Arguments now {D}.
Arguments now_stamp {D}.
Arguments getCurrentPose {D}.
Arguments checkCollisionFree {D}.

(** The members the run-time methods read or write, next to the
    configured ones; [effects] lists what the object has done, oldest
    first. *)
Record DriveOnHeadingRun (D : Type) := mkDriveOnHeadingRun {
  configured : DriveOnHeading D;
  cycle_frequency_ : D;
  robot_base_frame_ : string;
  command_x_ : D;
  command_speed_ : D;
  command_disable_collision_checks_ : bool;
  command_time_allowance_ : Z;
  end_time_ : Z;
  initial_pose_ : PoseStamped D;
  last_vel_ : D;
  effects : list (Effect D)
}.
Arguments mkDriveOnHeadingRun {D}.
Arguments configured {D}.
Arguments cycle_frequency_ {D}.
Arguments robot_base_frame_ {D}.
Arguments command_x_ {D}.
Arguments command_speed_ {D}.
Arguments command_disable_collision_checks_ {D}.
Arguments command_time_allowance_ {D}.
Arguments end_time_ {D}.
Arguments initial_pose_ {D}.
Arguments last_vel_ {D}.
Arguments effects {D}.

Section DriveOnHeadingRun.
Context {D : Type} {opsD : FloatOps D} {eqD : FloatEq D} {mathD : FloatMath D}.
Context (getYaw : Quaternion D → D).

Definition emit (this : DriveOnHeadingRun D) (effect : Effect D) : DriveOnHeadingRun D :=
  {| configured := configured this; cycle_frequency_ := cycle_frequency_ this;
     robot_base_frame_ := robot_base_frame_ this;
     command_x_ := command_x_ this; command_speed_ := command_speed_ this;
     command_disable_collision_checks_ := command_disable_collision_checks_ this;
     command_time_allowance_ := command_time_allowance_ this;
     end_time_ := end_time_ this; initial_pose_ := initial_pose_ this;
     last_vel_ := last_vel_ this; effects := effects this ++ [effect] |}.

Definition set_last_vel (this : DriveOnHeadingRun D) (v : D) : DriveOnHeadingRun D :=
  {| configured := configured this; cycle_frequency_ := cycle_frequency_ this;
     robot_base_frame_ := robot_base_frame_ this;
     command_x_ := command_x_ this; command_speed_ := command_speed_ this;
     command_disable_collision_checks_ := command_disable_collision_checks_ this;
     command_time_allowance_ := command_time_allowance_ this;
     end_time_ := end_time_ this; initial_pose_ := initial_pose_ this;
     last_vel_ := v; effects := effects this |}.

Definition set_initial_pose (this : DriveOnHeadingRun D) (p : PoseStamped D)
    : DriveOnHeadingRun D :=
  {| configured := configured this; cycle_frequency_ := cycle_frequency_ this;
     robot_base_frame_ := robot_base_frame_ this;
     command_x_ := command_x_ this; command_speed_ := command_speed_ this;
     command_disable_collision_checks_ := command_disable_collision_checks_ this;
     command_time_allowance_ := command_time_allowance_ this;
     end_time_ := end_time_ this; initial_pose_ := p;
     last_vel_ := last_vel_ this; effects := effects this |}.

(** The four assignments from the goal and the computation of the
    deadline. *)
Definition store_command (this : DriveOnHeadingRun D) (command : Goal D) (now : Z)
    : DriveOnHeadingRun D :=
  {| configured := configured this; cycle_frequency_ := cycle_frequency_ this;
     robot_base_frame_ := robot_base_frame_ this;
     command_x_ := point_x (target command); command_speed_ := speed command;
     command_disable_collision_checks_ := disable_collision_checks command;
     command_time_allowance_ := time_allowance command;
     end_time_ := (now + time_allowance command)%Z;
     initial_pose_ := initial_pose_ this;
     last_vel_ := last_vel_ this; effects := effects this |}.

Definition failed (code : ErrorCode) (message : string) : ResultStatus :=
  {| status := FAILED; error_code := code; error_msg := message |}.

(** *** onRun *)

Definition onRun (this : DriveOnHeadingRun D) (env : Collaborators D) (command : Goal D)
    : DriveOnHeadingRun D * ResultStatus :=
  if negb (feq (point_y (target command)) (flit 0%Q))
     || negb (feq (point_z (target command)) (flit 0%Q))
  then
    let error_msg := "DrivingOnHeading in Y and Z not supported, will only move in X." in
    (emit this (Logged INFO error_msg), failed INVALID_INPUT error_msg)
  else if negb (Bool.eqb (flt (flit 0%Q) (point_x (target command)))
                         (flt (flit 0%Q) (speed command)))
  then
    let error_msg := "Speed and command sign did not match" in
    (emit this (Logged ERROR error_msg), failed INVALID_INPUT error_msg)
  else
    let this := store_command this command (now env) in
    let '(available, written) := getCurrentPose env (initial_pose_ this) in
    let this := set_initial_pose this written in
    if negb available
    then
      let error_msg := "Initial robot pose is not available." in
      (emit this (Logged ERROR error_msg), failed TF_ERROR error_msg)
    else (this, {| status := SUCCEEDED; error_code := NONE; error_msg := "" |}).

(** *** isCollisionFree *)

(** The loop of [isCollisionFree] with [remaining] iterations before
    [cycle_count] reaches [max_cycle_count]; it returns the verdict, the
    pose variable and the queries put to the collision checker, each
    with its [fetch_data] flag. *)
Fixpoint isCollisionFree_loop (this : DriveOnHeadingRun D) (env : Collaborators D)
    (cmd_vel : Twist D) (init_pose : Pose D) (init_theta diff_dist : D)
    (remaining : nat) (cycle_count : Z) (fetch_data : bool) (pose : Pose D)
    (queries : list (Pose D * bool)) : bool * Pose D * list (Pose D * bool) :=
  match remaining with
  | O => (true, pose, queries)
  | S remaining' =>
      let sim_position_change :=
        fmul (vec_x (linear cmd_vel)) (fdiv (fofint cycle_count) (cycle_frequency_ this)) in
      let pose :=
        {| position :=
             {| point_x := fadd (point_x (position init_pose))
                                (fmul sim_position_change (fcos init_theta));
                point_y := fadd (point_y (position init_pose))
                                (fmul sim_position_change (fsin init_theta));
                point_z := point_z (position pose) |};
           orientation := orientation pose |} in
      let cycle_count := (cycle_count + 1)%Z in
      if fle (fsub diff_dist (c_abs sim_position_change)) (flit 0%Q)
      then (true, pose, queries)
      else if negb (checkCollisionFree env pose fetch_data)
      then (false, pose, queries ++ [(pose, fetch_data)])
      else
        isCollisionFree_loop this env cmd_vel init_pose init_theta diff_dist
          remaining' cycle_count false pose (queries ++ [(pose, fetch_data)])
  end.

Definition max_cycle_count (this : DriveOnHeadingRun D) : Z :=
  ftoint (fmul (cycle_frequency_ this) (simulate_ahead_time_ (configured this))).

Definition isCollisionFree (this : DriveOnHeadingRun D) (env : Collaborators D)
    (distance : D) (cmd_vel : Twist D) (pose : Pose D)
    : bool * Pose D * list (Pose D * bool) :=
  if command_disable_collision_checks_ this then (true, pose, [])
  else
    let diff_dist := fsub (c_abs (command_x_ this)) distance in
    let init_pose := pose in
    let init_theta := getYaw (orientation init_pose) in
    isCollisionFree_loop this env cmd_vel init_pose init_theta diff_dist
      (Z.to_nat (max_cycle_count this)) 0 true pose [].

(** *** onCycleUpdate *)

Definition zero_vector : Vector3 D :=
  {| vec_x := flit 0%Q; vec_y := flit 0%Q; vec_z := flit 0%Q |}.

(** The linear x velocity of the command, from the feasible speed range
    to the two corrections. *)
Definition commanded_speed (this : DriveOnHeadingRun D) (distance : D) : D :=
  let current_speed :=
    if feq (last_vel_ this) DBL_MAX then flit 0%Q else last_vel_ this in
  let forward := flt (flit 0%Q) (command_speed_ this) in
  let acceleration_limit := acceleration_limit_ (configured this) in
  let deceleration_limit := deceleration_limit_ (configured this) in
  let minimum_speed := minimum_speed_ (configured this) in
  let min_feasible_speed :=
    if forward
    then fadd current_speed (fdiv deceleration_limit (cycle_frequency_ this))
    else fsub current_speed (fdiv acceleration_limit (cycle_frequency_ this)) in
  let max_feasible_speed :=
    if forward
    then fadd current_speed (fdiv acceleration_limit (cycle_frequency_ this))
    else fsub current_speed (fdiv deceleration_limit (cycle_frequency_ this)) in
  let linear_x := std_clamp (command_speed_ this) min_feasible_speed max_feasible_speed in
  let remaining_distance := fsub (fabs (command_x_ this)) distance in
  let max_vel_to_stop :=
    fsqrt (fmul (fmul (fneg (flit 2%Q)) deceleration_limit) remaining_distance) in
  let linear_x :=
    if flt max_vel_to_stop (fabs linear_x)
    then (if forward then max_vel_to_stop else fneg max_vel_to_stop)
    else linear_x in
  if flt (fabs linear_x) minimum_speed
  then (if forward then minimum_speed else fneg minimum_speed)
  else linear_x.

Definition onCycleUpdate (this : DriveOnHeadingRun D) (env : Collaborators D)
    : DriveOnHeadingRun D * ResultStatus :=
  let time_remaining := (end_time_ this - now env)%Z in
  if (time_remaining <? 0)%Z && (0 <? command_time_allowance_ this)%Z
  then
    let error_msg :=
      "Exceeded time allowance before reaching the DriveOnHeading goal - Exiting DriveOnHeading" in
    (emit (emit this StopRobot) (Logged WARN error_msg), failed TIMEOUT error_msg)
  else
    let unset_pose :=
      {| ps_header := {| stamp := 0; frame_id := "" |};
         pose := {| position := {| point_x := flit 0%Q; point_y := flit 0%Q;
                                   point_z := flit 0%Q |};
                    orientation := {| quat_x := flit 0%Q; quat_y := flit 0%Q;
                                      quat_z := flit 0%Q; quat_w := flit 1%Q |} |} |} in
    let '(available, current_pose) := getCurrentPose env unset_pose in
    if negb available
    then
      let error_msg := "Current robot pose is not available." in
      (emit this (Logged ERROR error_msg), failed TF_ERROR error_msg)
    else
      let diff_x := fsub (point_x (position (pose (initial_pose_ this))))
                         (point_x (position (pose current_pose))) in
      let diff_y := fsub (point_y (position (pose (initial_pose_ this))))
                         (point_y (position (pose current_pose))) in
      let distance := fhypot diff_x diff_y in
      let this := emit this (PublishFeedback distance) in
      if fle (fabs (command_x_ this)) distance
      then (emit this StopRobot, {| status := SUCCEEDED; error_code := NONE; error_msg := "" |})
      else
        let linear_x := commanded_speed this distance in
        let cmd_vel :=
          {| ts_header := {| stamp := now_stamp env; frame_id := robot_base_frame_ this |};
             twist := {| linear := {| vec_x := linear_x; vec_y := flit 0%Q;
                                      vec_z := flit 0%Q |};
                         angular := zero_vector |} |} in
        let pose2d := pose current_pose in
        let '(free, _, _) := isCollisionFree this env distance (twist cmd_vel) pose2d in
        if negb free
        then
          let error_msg := "Collision Ahead - Exiting DriveOnHeading" in
          (emit (emit this StopRobot) (Logged WARN error_msg),
           failed COLLISION_AHEAD error_msg)
        else
          (emit (set_last_vel this linear_x) (PublishVelocity cmd_vel),
           {| status := RUNNING; error_code := NONE; error_msg := "" |}).

(** *** onCleanup, onActionCompletion *)

Definition onCleanup (this : DriveOnHeadingRun D) : DriveOnHeadingRun D :=
  set_last_vel this DBL_MAX.

Definition onActionCompletion (this : DriveOnHeadingRun D) : DriveOnHeadingRun D :=
  set_last_vel this DBL_MAX.

End DriveOnHeadingRun.

(** ** Exact rational arithmetic as an instance

    Used to evaluate the definitions on concrete inputs whose arithmetic
    is exact in binary floating point as well. *)
Module QFloat.

Definition qlt (a b : Q) : bool := negb (Qle_bool b a).

#[global] Instance ops : FloatOps Q := {|
  fadd a b := Qred (a + b)%Q;
  fsub a b := Qred (a - b)%Q;
  fmul a b := Qred (a * b)%Q;
  fdiv a b := Qred (a / b)%Q;
  fneg a := Qred (- a)%Q;
  fabs a := Qred (Qabs a);
  fpow2 a := Qred (a * a)%Q;
  flt := qlt;
  fle := Qle_bool;
  flit q := Qred q
|}.

#[global] Instance precisions : Precisions Q Q := {|
  narrow d := d;
  widen f := f;
  FLT_MAX := inject_Z 340282346638528859811704183484516925440
|}.

(** nav2_costmap_2d's cost values. *)
#[global] Instance cost_values : CostValues := {|
  LETHAL_OBSTACLE := 254;
  INSCRIBED_INFLATED_OBSTACLE := 253;
  NO_INFORMATION := 255
|}.

(** A stand-in for the quaternion of a yaw: it keeps the yaw itself. *)
Definition setRPY (roll pitch yaw : Q) : Quaternion Q :=
  {| quat_x := roll; quat_y := pitch; quat_z := yaw; quat_w := 1%Q |}.

End QFloat.

(** ** An instance with a NaN

    [None] plays the NaN: every comparison with it is false and every
    operation propagates it.  It shows that [FloatOrder] does not exclude
    unordered values. *)
Module NaNFloat.

Definition lift2 (f : Q → Q → Q) (a b : option Q) : option Q :=
  match a, b with Some x, Some y => Some (f x y) | _, _ => None end.

Definition cmp2 (f : Q → Q → bool) (a b : option Q) : bool :=
  match a, b with Some x, Some y => f x y | _, _ => false end.

#[global] Instance ops : FloatOps (option Q) := {|
  fadd := lift2 (@fadd Q _);
  fsub := lift2 (@fsub Q _);
  fmul := lift2 (@fmul Q _);
  fdiv := lift2 (@fdiv Q _);
  fneg := fmap (M:=option) (@fneg Q _);
  fabs := fmap (M:=option) (@fabs Q _);
  fpow2 := fmap (M:=option) (@fpow2 Q _);
  flt := cmp2 (@flt Q _);
  fle := cmp2 (@fle Q _);
  flit q := Some (Qred q)
|}.

Definition NaN : option Q := None.

End NaNFloat.

(** ** Rational instances of the run-time interfaces

    Equality and the integer conversions are exact.  The square root,
    hypotenuse, cosine and sine are stand-ins, exact at the arguments the
    examples below feed them: a root of 0 or 1, a hypotenuse with one
    zero leg, a heading of 0. *)
Module QMath.

#[global] Instance eq : FloatEq Q := {| feq := Qeq_bool |}.

#[global] Instance math : FloatMath Q := {|
  fsqrt q := q;
  fhypot a b := Qred (Qabs a + Qabs b)%Q;
  fcos _ := 1%Q;
  fsin _ := 0%Q;
  c_abs q := Qred (Qabs q);
  ftoint q := Z.quot (Qnum q) (Zpos (Qden q));
  fofint z := inject_Z z;
  DBL_MAX := inject_Z (2 ^ 1024 - 2 ^ 971)
|}.

(** The yaw of the stand-in quaternions of [QFloat.setRPY]. *)
Definition getYaw (q : Quaternion Q) : Q := quat_z q.

(** models::Path::reset as arrays of zeros. *)
Definition reset (n : nat) : Path Q :=
  {| path_x := replicate n 0%Q; path_y := replicate n 0%Q; path_yaws := replicate n 0%Q |}.

End QMath.

(** ** IEEE-754 binary64 as an instance
    C++ [double] itself, on the kernel's primitive floats.  A literal is
    the quotient of its numerator and denominator, which is the correctly
    rounded literal when both are below [2 ^ 53]. *)

Module Binary64.

Definition of_Z (z : Z) : PrimFloat.float :=
  match z with
  | Z0 => PrimFloat.zero
  | Zpos _ => PrimFloat.of_uint63 (Uint63.of_Z z)
  | Zneg p => PrimFloat.opp (PrimFloat.of_uint63 (Uint63.of_Z (Zpos p)))
  end.

Definition of_Q (q : Q) : PrimFloat.float :=
  PrimFloat.div (of_Z (Qnum q)) (of_Z (Zpos (Qden q))).

#[global] Instance ops : FloatOps PrimFloat.float := {|
  fadd := PrimFloat.add;
  fsub := PrimFloat.sub;
  fmul := PrimFloat.mul;
  fdiv := PrimFloat.div;
  fneg := PrimFloat.opp;
  fabs := PrimFloat.abs;
  fpow2 a := PrimFloat.mul a a;
  flt := PrimFloat.ltb;
  fle := PrimFloat.leb;
  flit := of_Q
|}.

End Binary64.

(** ** Concrete inputs *)

Definition stamped_at (x y : Q) : PoseStamped Q :=
  {| ps_header := {| stamp := 0; frame_id := "map" |};
     pose := {| position := {| point_x := x; point_y := y; point_z := 0%Q |};
                orientation := {| quat_x := 0%Q; quat_y := 0%Q; quat_z := 0%Q;
                                  quat_w := 1%Q |} |} |}.

Definition path_through (points : list (Q * Q)) : NavPath Q :=
  {| header := {| stamp := 0; frame_id := "map" |};
     poses := (λ p, stamped_at p.1 p.2) <$> points |}.

(** The path (0,0), (1,0), (2,0), (1,0), (0,0): out along x and back. *)
Definition cusp_path : NavPath Q :=
  path_through [(0%Q, 0%Q); (1%Q, 0%Q); (2%Q, 0%Q); (1%Q, 0%Q); (0%Q, 0%Q)].

(** A store holding the cusp path as object 0. *)
Definition cusp_store : gmap nat (NavPath Q) := {[ 0 := cusp_path ]}.

(** A three-point path along x with headings, and a critic context on it. *)
Definition straight_path : Path Q :=
  {| path_x := [0%Q; 1%Q; 2%Q]; path_y := [0%Q; 0%Q; (1 # 2)%Q];
     path_yaws := [0%Q; 0%Q; (1 # 4)%Q] |}.

Definition no_trajectories : Trajectories Q :=
  {| traj_x := {| arr_rows := 0; arr_cols := 0; arr_data := [] |};
     traj_y := {| arr_rows := 0; arr_cols := 0; arr_data := [] |};
     traj_yaws := {| arr_rows := 0; arr_cols := 0; arr_data := [] |} |}.

Definition pose_at (x y : Q) : Pose Q :=
  {| position := {| point_x := x; point_y := y; point_z := 0%Q |};
     orientation := {| quat_x := 0%Q; quat_y := 0%Q; quat_z := 0%Q; quat_w := 1%Q |} |}.

Definition straight_data : CriticData Q Q :=
  {| trajectories := no_trajectories; path := straight_path;
     goal := pose_at 5%Q 5%Q; path_pts_valid := None;
     furthest_reached_path_point := None |}.

(** A goal checker with position tolerance 1/4. *)
Definition quarter_checker : GoalChecker Q :=
  {| pose_tolerance := pose_at (1 # 4)%Q (1 # 4)%Q;
     velocity_tolerance :=
       {| linear := {| vec_x := 0%Q; vec_y := 0%Q; vec_z := 0%Q |};
          angular := {| vec_x := 0%Q; vec_y := 0%Q; vec_z := 0%Q |} |} |}.

(** A 3 x 1 grid of unit cells whose cells cost 0, 254 and 255. *)
Definition strip_costmap : Costmap2D Q :=
  {| worldToMap wx wy :=
       if Qle_bool 0 wx && QFloat.qlt wx 3 && Qle_bool 0 wy && QFloat.qlt wy 1
       then Some (Z.to_nat (Qfloor wx), 0) else None;
     getCost mx my :=
       match mx with 0 => 0%Z | 1 => 254%Z | _ => 255%Z end |}.

Definition strip_costmap_ros : Costmap2DROS Q :=
  {| getCostmap := strip_costmap; isTrackingUnknown := false |}.

(** A behavior named "backup" configured with acceleration limit -3 and
    deceleration limit 2. *)
Definition misconfigured_node : Node Q :=
  {| parameter_overrides :=
       {[ "backup.acceleration_limit" := (-3)%Q; "backup.deceleration_limit" := 2%Q ]};
     parameters := ∅ |}.

Definition misconfigured_behavior : DriveOnHeading Q :=
  {| node_ := Some misconfigured_node; behavior_name_ := "backup"; logger_ := [];
     simulate_ahead_time_ := 0%Q; acceleration_limit_ := 0%Q;
     deceleration_limit_ := 0%Q; minimum_speed_ := 0%Q |}.

(** Three trajectories of two steps along the path (0,0), (1,0), (2,0);
    the arrays are column-major, one row per trajectory. *)
Definition batch_data : CriticData Q Q :=
  {| trajectories :=
       {| traj_x := {| arr_rows := 3; arr_cols := 2;
                       arr_data := [0%Q; 0%Q; 0%Q; (11 # 10)%Q; (1 # 5)%Q; 2%Q] |};
          traj_y := {| arr_rows := 3; arr_cols := 2;
                       arr_data := [0%Q; 0%Q; 0%Q; 0%Q; 0%Q; (1 # 10)%Q] |};
          traj_yaws := {| arr_rows := 3; arr_cols := 2;
                          arr_data := [0%Q; 0%Q; 0%Q; 0%Q; 0%Q; 0%Q] |} |};
     path := {| path_x := [0%Q; 1%Q; 2%Q]; path_y := [0%Q; 0%Q; 0%Q];
                path_yaws := [0%Q; 0%Q; 0%Q] |};
     goal := pose_at 2%Q 0%Q; path_pts_valid := None;
     furthest_reached_path_point := None |}.

(** A control sequence of [n] steps that is 1 at the first step of vx and
    wz and 0 elsewhere, and a history of zeros. *)
Definition impulse (n : nat) : ControlSequence Q :=
  {| cs_vx := 1%Q :: replicate (n - 1) 0%Q;
     cs_vy := replicate n 0%Q;
     cs_wz := 1%Q :: replicate (n - 1) 0%Q |}.

Definition zero_control : Control Q := {| ctrl_vx := 0%Q; ctrl_vy := 0%Q; ctrl_wz := 0%Q |}.

Definition zero_history : ControlHistory Q :=
  {| hist_0 := zero_control; hist_1 := zero_control;
     hist_2 := zero_control; hist_3 := zero_control |}.

Definition shifting : OptimizerSettings := {| shift_control_sequence := true |}.

(** A 2 x 3 array with columns (1,2), (3,4), (5,6), a column vector and a
    row vector of three entries, and an array of one entry. *)
Definition grid_2x3 : ArrayXX Q :=
  {| arr_rows := 2; arr_cols := 3; arr_data := [1%Q; 2%Q; 3%Q; 4%Q; 5%Q; 6%Q] |}.

Definition column_3 : ArrayXX Q :=
  {| arr_rows := 3; arr_cols := 1; arr_data := [1%Q; 2%Q; 3%Q] |}.

Definition row_3 : ArrayXX Q :=
  {| arr_rows := 1; arr_cols := 3; arr_data := [1%Q; 2%Q; 3%Q] |}.

Definition single : ArrayXX Q :=
  {| arr_rows := 1; arr_cols := 1; arr_data := [7%Q] |}.

(** Accumulated distances along a path. *)
Definition accumulated : list Q := [0%Q; 1%Q; 2%Q; 4%Q].

(** A cost grid that contains no point. *)
Definition nowhere_costmap_ros : Costmap2DROS Q :=
  {| getCostmap := {| worldToMap _ _ := None; getCost _ _ := 0%Z |};
     isTrackingUnknown := true |}.

(** A control history of ones and the setting without warm-start shift. *)
Definition one_control : Control Q := {| ctrl_vx := 1%Q; ctrl_vy := 1%Q; ctrl_wz := 1%Q |}.

Definition busy_history : ControlHistory Q :=
  {| hist_0 := one_control; hist_1 := one_control;
     hist_2 := one_control; hist_3 := one_control |}.

Definition not_shifting : OptimizerSettings := {| shift_control_sequence := false |}.

(** An array with four columns and no rows. *)
Definition no_rows : ArrayXX Q := {| arr_rows := 0; arr_cols := 4; arr_data := [] |}.

(** The critic context of a pass on the cusp path, truncated and
    converted. *)
Definition cusp_data : CriticData Q Q :=
  {| trajectories := no_trajectories;
     path := toTensor QMath.getYaw QMath.reset (removePosesAfterFirstInversion cusp_path).1;
     goal := pose_at 0%Q 0%Q; path_pts_valid := None;
     furthest_reached_path_point := None |}.

(** A behavior named "backup" whose node sets only the deceleration
    limit, to -1/2; the acceleration limit takes its default 5/2. *)
Definition well_configured_node : Node Q :=
  {| parameter_overrides := {[ "backup.deceleration_limit" := (-1 # 2)%Q ]};
     parameters := ∅ |}.

Definition well_configured_behavior : DriveOnHeading Q :=
  {| node_ := Some well_configured_node; behavior_name_ := "backup"; logger_ := [];
     simulate_ahead_time_ := 0%Q; acceleration_limit_ := 0%Q;
     deceleration_limit_ := 0%Q; minimum_speed_ := 0%Q |}.

(** A configured behavior (limits 5/2 and -1/2, minimum speed 1/10, two
    seconds of look-ahead) running at 10 Hz, at rest at the origin; the
    pose is always available at the origin and nothing is in the way.
    A goal of one metre ahead at 1/2 m/s with ten seconds allowed. *)
Definition idle_run : DriveOnHeadingRun Q :=
  {| configured :=
       {| node_ := None; behavior_name_ := "backup"; logger_ := [];
          simulate_ahead_time_ := 2%Q; acceleration_limit_ := (5 # 2)%Q;
          deceleration_limit_ := (-1 # 2)%Q; minimum_speed_ := (1 # 10)%Q |};
     cycle_frequency_ := 10%Q; robot_base_frame_ := "base_link";
     command_x_ := 0%Q; command_speed_ := 0%Q;
     command_disable_collision_checks_ := false;
     command_time_allowance_ := 0; end_time_ := 0;
     initial_pose_ := stamped_at 0%Q 0%Q;
     last_vel_ := DBL_MAX; effects := [] |}.

Definition clear_world : Collaborators Q :=
  {| now := 0; now_stamp := 0;
     getCurrentPose _ := (true, stamped_at 0%Q 0%Q);
     checkCollisionFree _ _ := true |}.

Definition blocked_world : Collaborators Q :=
  {| now := 0; now_stamp := 0;
     getCurrentPose _ := (true, stamped_at 0%Q 0%Q);
     checkCollisionFree p _ := QFloat.qlt (point_x (position p)) (1 # 10)%Q |}.

Definition one_metre_ahead : Goal Q :=
  {| target := {| point_x := 1%Q; point_y := 0%Q; point_z := 0%Q |};
     speed := (1 # 2)%Q; time_allowance := 10000000000;
     disable_collision_checks := false |}.

(** A goal checker with position tolerance -1/4. *)
Definition negative_checker : GoalChecker Q :=
  {| pose_tolerance := pose_at (-1 # 4)%Q (-1 # 4)%Q;
     velocity_tolerance :=
       {| linear := {| vec_x := 0%Q; vec_y := 0%Q; vec_z := 0%Q |};
          angular := {| vec_x := 0%Q; vec_y := 0%Q; vec_z := 0%Q |} |} |}.

(** Doubles on a 3-4-5 triangle: with [a = 132762830648380] the robot is
    at [(3 a / 2 ^ 50, 4 a / 2 ^ 50)], the goal at the origin, and the
    position tolerance is [5 a / 2 ^ 50]; all three values are doubles,
    and the robot is at distance exactly the tolerance. *)
Definition triangle_unit : Z := 132762830648380.

Definition binary64_pose (x y : Z) : Pose PrimFloat.float :=
  {| position := {| point_x := flit (x # 2 ^ 50)%Q; point_y := flit (y # 2 ^ 50)%Q;
                    point_z := flit 0%Q |};
     orientation := {| quat_x := flit 0%Q; quat_y := flit 0%Q; quat_z := flit 0%Q;
                       quat_w := flit 1%Q |} |}.

Definition triangle_checker : GoalChecker PrimFloat.float :=
  {| pose_tolerance := binary64_pose (5 * triangle_unit) (5 * triangle_unit);
     velocity_tolerance :=
       {| linear := {| vec_x := flit 0%Q; vec_y := flit 0%Q; vec_z := flit 0%Q |};
          angular := {| vec_x := flit 0%Q; vec_y := flit 0%Q; vec_z := flit 0%Q |} |} |}.

(** A behavior named "backup" configured with both limits 0. *)
Definition zero_limits_node : Node Q :=
  {| parameter_overrides :=
       {[ "backup.acceleration_limit" := 0%Q; "backup.deceleration_limit" := 0%Q ]};
     parameters := ∅ |}.

Definition zero_limits_behavior : DriveOnHeading Q :=
  {| node_ := Some zero_limits_node; behavior_name_ := "backup"; logger_ := [];
     simulate_ahead_time_ := 0%Q; acceleration_limit_ := 0%Q;
     deceleration_limit_ := 0%Q; minimum_speed_ := 0%Q |}.

(** * Properties *)

(** ** The instances satisfy the order facts *)

Lemma qlt_spec a b : QFloat.qlt a b = true ↔ (a < b)%Q.
Proof.
  unfold QFloat.qlt. rewrite negb_true_iff.
  destruct (Qle_bool b a) eqn:E.
  - apply Qle_bool_iff in E. split; [discriminate|]. intros Hlt.
    exfalso. exact (Qlt_not_le _ _ Hlt E).
  - split; [intros _|reflexivity].
    apply Qnot_le_lt. intros Hle. apply Qle_bool_iff in Hle. congruence.
Qed.

Lemma qlt_false a b : QFloat.qlt a b = false ↔ (b <= a)%Q.
Proof.
  unfold QFloat.qlt. rewrite negb_false_iff. apply Qle_bool_iff.
Qed.

#[global] Instance QFloat_order : FloatOrder Q.
Proof.
  split; cbn [flt fle QFloat.ops].
  - intros a b Hlt. apply Qle_bool_iff, Qlt_le_weak, qlt_spec, Hlt.
  - intros a b _. apply Qle_bool_iff, Qle_refl.
  - intros a b _. apply Qle_bool_iff, Qle_refl.
  - intros a b Hle. apply qlt_false. apply Qle_bool_iff, Hle.
  - intros a b Hlt _ _. apply Qle_bool_iff. apply qlt_false, Hlt.
  - intros c m a Hcm Ham. apply qlt_false. apply qlt_spec in Hcm.
    apply qlt_false in Ham. apply Qlt_le_weak.
    eapply Qlt_le_trans; eassumption.
  - intros a b c Hab Hbc. apply qlt_spec. apply qlt_spec in Hbc.
    apply Qle_bool_iff in Hab. eapply Qle_lt_trans; eassumption.
Qed.

#[global] Instance NaNFloat_order : FloatOrder (option Q).
Proof.
  split.
  - intros [a|] [b|]; try discriminate. exact (flt_fle (T:=Q) a b).
  - intros [a|] [b|]; try discriminate. exact (fle_refl_l (T:=Q) a b).
  - intros [a|] [b|]; try discriminate. exact (fle_refl_r (T:=Q) a b).
  - intros [a|] [b|]; try discriminate. exact (fle_not_flt (T:=Q) a b).
  - intros [a|] [b|]; try discriminate. exact (not_flt_fle (T:=Q) a b).
  - intros [c|] [m|] [a|]; try discriminate; try reflexivity.
    exact (flt_cotrans (T:=Q) c m a).
  - intros [a|] [b|] [c|]; try discriminate. exact (fle_flt_trans (T:=Q) a b c).
Qed.

#[global] Instance QFloat_sign : FloatSign Q.
Proof.
  split.
  - intros x Hx. apply qlt_spec. change (flit 0%Q) with 0%Q in *.
    change (fabs x) with (Qred (Qabs x)). rewrite Qred_correct.
    destruct Hx as [Hx|Hx]; apply qlt_spec in Hx.
    + rewrite Qabs_neg by (apply Qlt_le_weak; exact Hx).
      destruct x as [n d]. unfold Qlt in *. cbn in *. lia.
    + rewrite Qabs_pos by (apply Qlt_le_weak; exact Hx). exact Hx.
  - intros x Hx. apply qlt_spec. apply qlt_spec in Hx.
    change (flit 0%Q) with 0%Q in *.
    change (fneg x) with (Qred (- x)). rewrite Qred_correct.
    destruct x as [n d]. unfold Qlt in *. cbn in *. lia.
Qed.

(** ** clamp *)

Section ClampProperties.
Context {F : Type} {opsF : FloatOps F} {ordF : FloatOrder F}.

Lemma clamp_cases (l u x : F) :
  (flt (std_max x l) u = false ∧ clamp l u x = u) ∨
  (flt x l = true ∧ flt l u = true ∧ clamp l u x = l) ∨
  (flt x l = false ∧ flt x u = true ∧ clamp l u x = x).
Proof.
  unfold clamp, std_min, std_max.
  destruct (flt x l) eqn:Hxl.
  - destruct (flt l u) eqn:Hlu; [right; left|left]; auto.
  - destruct (flt x u) eqn:Hxu; [right; right|left]; auto.
Qed.

(** C6: for bounds [l <= u], clamping is idempotent and its result lies
    between the bounds, whatever the input (a NaN included). *)
Theorem clamp_idempotent_within_bounds (l u x : F) :
  fle l u = true →
  clamp l u (clamp l u x) = clamp l u x ∧
  fle l (clamp l u x) = true ∧ fle (clamp l u x) u = true.
Proof.
  intros Hlu.
  pose proof (fle_not_flt _ _ Hlu) as Hul.
  destruct (clamp_cases l u x) as [[_ ->]|[(Hxl & Hl & ->)|(Hxl & Hxu & ->)]].
  - split; [|split]; [|assumption|exact (fle_refl_r _ _ Hlu)].
    unfold clamp, std_min, std_max. rewrite Hul.
    destruct (flt u u); reflexivity.
  - split; [|split]; [|exact (fle_refl_l _ _ Hlu)|assumption].
    unfold clamp, std_min, std_max.
    destruct (flt l l); rewrite Hl; reflexivity.
  - pose proof (flt_fle _ _ Hxu) as Hle.
    split; [|split]; [| |assumption].
    + unfold clamp, std_min, std_max. rewrite Hxl, Hxu. reflexivity.
    + apply not_flt_fle; [assumption| |].
      * exact (fle_refl_l _ _ Hle).
      * exact (fle_refl_l _ _ Hlu).
Qed.

End ClampProperties.

(** The theorem at bounds [0, 1] and a NaN input. *)
Lemma clamp_idempotent_within_bounds_witness :
  fle (Some 0%Q) (Some 1%Q) = true ∧
  (clamp (Some 0%Q) (Some 1%Q) (clamp (Some 0%Q) (Some 1%Q) NaNFloat.NaN)
     = clamp (Some 0%Q) (Some 1%Q) NaNFloat.NaN ∧
   fle (Some 0%Q) (clamp (Some 0%Q) (Some 1%Q) NaNFloat.NaN) = true ∧
   fle (clamp (Some 0%Q) (Some 1%Q) NaNFloat.NaN) (Some 1%Q) = true).
Proof.
  split; [reflexivity|].
  apply (clamp_idempotent_within_bounds (Some 0%Q) (Some 1%Q) NaNFloat.NaN).
  reflexivity.
Defined.

Example clamp_values :
  clamp 0%Q 1%Q 5%Q = 1%Q ∧ clamp 0%Q 1%Q (-3)%Q = 0%Q ∧
  clamp 0%Q 1%Q (1 # 2)%Q = (1 # 2)%Q ∧
  clamp (Some 0%Q) (Some 1%Q) NaNFloat.NaN = Some 1%Q.
Proof. repeat split; reflexivity. Qed.

(** ** Inversion detection and truncation *)

Section PathInversion.
Context {F D : Type} {opsF : FloatOps F} {opsD : FloatOps D} {prec : Precisions F D}.

Lemma inversion_scan_Some (path : NavPath D) (idx remaining r : nat) :
  inversion_scan path idx remaining = Some r →
  idx + 1 ≤ r ≤ idx + remaining ∧ cusp_at path (r - 1) ∧
  ∀ k, idx ≤ k < r - 1 → ¬ cusp_at path k.
Proof.
  revert idx. induction remaining as [|n IH]; intros idx; simpl; [discriminate|].
  destruct (flt (dot_product_at path idx) (flit 0%Q)) eqn:Hdot.
  - intros [= <-]. replace (idx + 1 - 1) with idx by lia.
    split; [lia|]. split; [exact Hdot|]. intros k Hk. lia.
  - intros Hscan. destruct (IH _ Hscan) as (Hr & Hcusp & Hfirst).
    split; [lia|]. split; [exact Hcusp|].
    intros k Hk. destruct (decide (k = idx)) as [->|Hne].
    + unfold cusp_at. rewrite Hdot. discriminate.
    + apply Hfirst. lia.
Qed.

Lemma inversion_scan_None (path : NavPath D) (idx remaining : nat) :
  inversion_scan path idx remaining = None →
  ∀ k, idx ≤ k < idx + remaining → ¬ cusp_at path k.
Proof.
  revert idx. induction remaining as [|n IH]; intros idx; simpl; [intros _ k Hk; lia|].
  destruct (flt (dot_product_at path idx) (flit 0%Q)) eqn:Hdot; [discriminate|].
  intros Hscan k Hk. destruct (decide (k = idx)) as [->|Hne].
  - unfold cusp_at. rewrite Hdot. discriminate.
  - apply (IH _ Hscan). lia.
Qed.

(** Detection returns the index right after the first cusp, or the path
    length when no interior pose is a cusp. *)
Lemma findFirstPathInversion_spec (path : NavPath D) :
  let n := length (poses path) in
  let r := findFirstPathInversion path in
  (r = n ∧ ∀ k, 1 ≤ k → k + 1 < n → ¬ cusp_at path k) ∨
  (2 ≤ r < n ∧ cusp_at path (r - 1) ∧ ∀ k, 1 ≤ k < r - 1 → ¬ cusp_at path k).
Proof.
  intros n r. subst n r. unfold findFirstPathInversion.
  destruct (Nat.ltb_spec (length (poses path)) 3) as [Hshort|Hlong].
  - left. split; [reflexivity|]. intros k Hk1 Hk2. lia.
  - destruct (inversion_scan path 1 (length (poses path) - 1 - 1)) as [r|] eqn:Hscan.
    + right. apply inversion_scan_Some in Hscan as (Hr & Hcusp & Hfirst).
      split; [lia|]. split; assumption.
    + left. split; [reflexivity|]. intros k Hk1 Hk2.
      apply (inversion_scan_None _ _ _ Hscan). lia.
Qed.

Lemma findFirstPathInversion_le (path : NavPath D) :
  findFirstPathInversion path ≤ length (poses path).
Proof.
  destruct (findFirstPathInversion_spec path) as [[-> _]|[Hr _]]; lia.
Qed.

(** Truncation keeps exactly the poses before the returned index of
    detection, keeps the header, and returns that index, or 0 when
    nothing was removed. *)
Lemma removePosesAfterFirstInversion_spec (path : NavPath D) :
  let r := findFirstPathInversion path in
  let '(path', ret) := removePosesAfterFirstInversion path in
  poses path' = take r (poses path) ∧ header path' = header path ∧
  ret = (if decide (r = length (poses path)) then 0 else r).
Proof.
  intros r. subst r. unfold removePosesAfterFirstInversion.
  destruct (Nat.eqb_spec (findFirstPathInversion path) (length (poses path))) as [Heq|Hne].
  - rewrite Heq, firstn_all. rewrite decide_True by reflexivity. auto.
  - cbn. rewrite decide_False by assumption. auto.
Qed.

End PathInversion.


(** ** Truncation of the working copy *)

Section TruncationFrame.
Context {F D : Type} {opsF : FloatOps F} {opsD : FloatOps D} {prec : Precisions F D}.





End TruncationFrame.


(** The call itself writes through its reference: handed the cusp path's
    own cell it leaves three of the five poses there, which is why the
    pass hands it a copy. *)
Example removePosesAfterFirstInversion_at_values :
  removePosesAfterFirstInversion_at cusp_store 0
    = Some ({[ 0 := path_through [(0%Q, 0%Q); (1%Q, 0%Q); (2%Q, 0%Q)] ]}, 3) ∧
  truncate_working_copy cusp_store 0 1
    = Some ({[ 0 := cusp_path;
               1 := path_through [(0%Q, 0%Q); (1%Q, 0%Q); (2%Q, 0%Q)] ]}, 3).
Proof. split; vm_compute; reflexivity. Qed.

(** ** The goal handed to a critic *)

Section CriticGoal.
Context {F D : Type} {opsF : FloatOps F} {opsD : FloatOps D} {prec : Precisions F D}.
Context (setRPY : D → D → D → Quaternion D).

Lemma lookup_total_last (l : list F) (n : nat) (a : F) :
  last l = Some a → length l = n → l !!! (n - 1) = a.
Proof.
  intros Hlast <-. apply list_lookup_total_correct.
  rewrite last_lookup in Hlast. rewrite <- Hlast. f_equal. lia.
Qed.

(** C7: on a non-empty path the goal of a critic that enforces path
    inversion is the pose made of the last path point and the last
    heading; for any other critic it is the goal of the context. *)
Theorem critic_goal_last_pose_or_goal (data : CriticData F D) (lx ly lyaw : F) :
  last (path_x (path data)) = Some lx →
  last (path_y (path data)) = Some ly →
  last (path_yaws (path data)) = Some lyaw →
  length (path_y (path data)) = length (path_x (path data)) →
  length (path_yaws (path data)) = length (path_x (path data)) →
  (Z.of_nat (length (path_x (path data))) ≤ 2 ^ 32)%Z →
  getCriticGoal setRPY data true
    = {| position := {| point_x := widen lx; point_y := widen ly; point_z := flit 0%Q |};
         orientation := setRPY (flit 0%Q) (flit 0%Q) (widen lyaw) |} ∧
  getCriticGoal setRPY data false = goal data.
Proof.
  intros Hx Hy Hyaw Hleny Hlenyaw Hbound. split; [|reflexivity].
  assert (Hne : length (path_x (path data)) ≠ 0).
  { destruct (path_x (path data)); [discriminate|cbn; lia]. }
  assert (Hidx : path_last_idx (path data) = length (path_x (path data)) - 1).
  { unfold path_last_idx. rewrite Z.mod_small by lia. lia. }
  unfold getCriticGoal, getLastPathPose. rewrite Hidx.
  rewrite (lookup_total_last _ _ _ Hx eq_refl).
  rewrite (lookup_total_last _ _ _ Hy Hleny).
  rewrite (lookup_total_last _ _ _ Hyaw Hlenyaw).
  destruct (setRPY (flit 0%Q) (flit 0%Q) (widen lyaw)); reflexivity.
Qed.

End CriticGoal.

(** The theorem on the three-point path ending at (2, 1/2) with heading 1/4. *)
Lemma critic_goal_last_pose_or_goal_witness :
  getCriticGoal QFloat.setRPY straight_data true
    = {| position := {| point_x := 2%Q; point_y := (1 # 2)%Q; point_z := 0%Q |};
         orientation := QFloat.setRPY 0%Q 0%Q (1 # 4)%Q |} ∧
  getCriticGoal QFloat.setRPY straight_data false = pose_at 5%Q 5%Q.
Proof.
  exact (critic_goal_last_pose_or_goal QFloat.setRPY straight_data
           2%Q (1 # 2)%Q (1 # 4)%Q eq_refl eq_refl eq_refl eq_refl eq_refl
           ltac:(cbv; discriminate)).
Defined.

(** ** The goal-tolerance check *)

Section GoalTolerance.
Context {F D : Type} {opsF : FloatOps F} {opsD : FloatOps D} {prec : Precisions F D}.
Context {ordD : FloatOrder D}.

(** C8, as the code has it: with a goal checker, a pose is at the goal
    exactly when the squared planar distance to the goal, as computed, is
    strictly below the computed square of the checker's position
    tolerance, and without a goal checker it never is; at a computed
    squared distance equal to the computed squared tolerance or above,
    the pose is not at the goal.  The overload that takes the tolerance
    itself decides the same way.  The comparison is between the two
    squares, not between the distance and the tolerance. *)
Theorem within_tolerance_iff_strictly_below
    (goal_checker : option (GoalChecker D)) (tolerance : F) (robot goal : Pose D) :
  (withinPositionGoalTolerance_checker goal_checker robot goal = true ↔
   ∃ checker, goal_checker = Some checker ∧
     flt (dist_sq_checker robot goal)
         (fmul (point_x (position (pose_tolerance checker)))
               (point_x (position (pose_tolerance checker)))) = true) ∧
  (∀ checker, goal_checker = Some checker →
     fle (fmul (point_x (position (pose_tolerance checker)))
               (point_x (position (pose_tolerance checker))))
         (dist_sq_checker robot goal) = true →
     withinPositionGoalTolerance_checker goal_checker robot goal = false) ∧
  (withinPositionGoalTolerance_float tolerance robot goal = true ↔
   flt (dist_sq_float robot goal) (widen (fmul tolerance tolerance)) = true) ∧
  (fle (widen (fmul tolerance tolerance)) (dist_sq_float robot goal) = true →
   withinPositionGoalTolerance_float tolerance robot goal = false).
Proof.
  unfold withinPositionGoalTolerance_checker, withinPositionGoalTolerance_float.
  fold (dist_sq_checker robot goal). fold (dist_sq_float robot goal).
  repeat split.
  - destruct goal_checker as [checker|]; [|discriminate].
    intros Hlt. exists checker. split; [reflexivity|].
    destruct (flt _ _); [reflexivity|discriminate].
  - intros (checker & -> & ->). reflexivity.
  - intros checker -> Hle. rewrite (fle_not_flt _ _ Hle). reflexivity.
  - destruct (flt _ _); [reflexivity|discriminate].
  - intros ->. reflexivity.
  - intros Hle. rewrite (fle_not_flt _ _ Hle). reflexivity.
Qed.

End GoalTolerance.

(** The theorem with tolerance 1/4 and a robot at distance exactly 1/4. *)
Lemma within_tolerance_iff_strictly_below_witness :
  withinPositionGoalTolerance_checker (Some quarter_checker)
    (pose_at (1 # 4)%Q 0%Q) (pose_at 0%Q 0%Q) = false ∧
  withinPositionGoalTolerance_float (1 # 4)%Q
    (pose_at (1 # 4)%Q 0%Q) (pose_at 0%Q 0%Q) = false.
Proof.
  pose proof (within_tolerance_iff_strictly_below (F:=Q) (D:=Q)
                (Some quarter_checker) (1 # 4)%Q
                (pose_at (1 # 4)%Q 0%Q) (pose_at 0%Q 0%Q)) as (_ & Hc & _ & Hf).
  split.
  - apply (Hc quarter_checker); reflexivity.
  - apply Hf. reflexivity.
Defined.

(** C8 as stated fails: a robot standing on the goal is at distance 0,
    which is beyond a tolerance of -1/4, and both overloads answer that
    it is at the goal. *)
Lemma within_tolerance_beyond_negative_tolerance :
  dist_sq_checker (pose_at 0%Q 0%Q) (pose_at 0%Q 0%Q) = 0%Q ∧
  dist_sq_float (pose_at 0%Q 0%Q) (pose_at 0%Q 0%Q) = 0%Q ∧
  (point_x (position (pose_tolerance negative_checker)) <= 0)%Q ∧
  withinPositionGoalTolerance_checker (Some negative_checker)
    (pose_at 0%Q 0%Q) (pose_at 0%Q 0%Q) = true ∧
  withinPositionGoalTolerance_float (-1 # 4)%Q
    (pose_at 0%Q 0%Q) (pose_at 0%Q 0%Q) = true.
Proof.
  split; [reflexivity|]. split; [reflexivity|].
  split; [cbv; discriminate|]. split; reflexivity.
Qed.

(** With a positive tolerance the same happens on doubles through
    rounding: on the 3-4-5 triangle the robot is at distance exactly the
    tolerance, the sum of the rounded squares falls below the rounded
    square of the tolerance, and the check answers that the robot is at
    the goal. *)
Example within_tolerance_binary64_at_the_tolerance :
  ((3 * triangle_unit) ^ 2 + (4 * triangle_unit) ^ 2 = (5 * triangle_unit) ^ 2)%Z ∧
  (5 * triangle_unit < 2 ^ 53)%Z ∧
  withinPositionGoalTolerance_checker (Some triangle_checker)
    (binary64_pose (3 * triangle_unit) (4 * triangle_unit)) (binary64_pose 0 0) = true.
Proof. repeat split; vm_compute; reflexivity. Qed.

(** In exact arithmetic and with a tolerance that is not negative, the
    comparison of the squares is the comparison of the distance with the
    tolerance: a pose at distance [d] equal to the tolerance or beyond is
    not at the goal. *)
Lemma within_tolerance_exact_distance (tolerance d : Q) (robot goal : Pose Q) :
  (0 <= tolerance)%Q → (tolerance <= d)%Q →
  (d * d == dist_sq_float robot goal)%Q →
  withinPositionGoalTolerance_float tolerance robot goal = false.
Proof.
  intros Hnonneg Hbeyond Hdist.
  unfold withinPositionGoalTolerance_float. fold (dist_sq_float robot goal).
  replace (flt (dist_sq_float robot goal) (widen (fmul tolerance tolerance)))
    with false; [reflexivity|].
  symmetry. apply qlt_false.
  change (widen (fmul tolerance tolerance)) with (Qred (tolerance * tolerance)).
  rewrite Qred_correct, <- Hdist.
  apply Qmult_le_compat_nonneg; split; assumption.
Qed.

Example within_tolerance_values :
  withinPositionGoalTolerance_checker (Some quarter_checker)
    (pose_at (1 # 5)%Q 0%Q) (pose_at 0%Q 0%Q) = true ∧
  withinPositionGoalTolerance_checker (Some quarter_checker)
    (pose_at (1 # 4)%Q 0%Q) (pose_at 0%Q 0%Q) = false ∧
  withinPositionGoalTolerance_checker None
    (pose_at 0%Q 0%Q) (pose_at 0%Q 0%Q) = false ∧
  withinPositionGoalTolerance_float (1 # 4)%Q
    (pose_at 0%Q (1 # 5)%Q) (pose_at 0%Q 0%Q) = true.
Proof. repeat split; reflexivity. Qed.

(** ** The path validity mask *)

Section PathCosts.
Context {F D : Type} {opsF : FloatOps F} {opsD : FloatOps D} {prec : Precisions F D}.
Context {cost_values : CostValues}.

Lemma segment_valid_false_iff (costmap_ros : Costmap2DROS D) (px py : F) :
  segment_valid costmap_ros px py = false ↔ segment_blocked costmap_ros px py.
Proof.
  unfold segment_valid, segment_blocked.
  destruct (worldToMap _ _ _) as [[map_x map_y]|]; [|tauto].
  cbv zeta.
  destruct (Z.eqb_spec (getCost (getCostmap costmap_ros) map_x map_y) LETHAL_OBSTACLE)
    as [Hl|Hl]; [tauto|].
  destruct (Z.eqb_spec (getCost (getCostmap costmap_ros) map_x map_y)
              INSCRIBED_INFLATED_OBSTACLE) as [Hi|Hi]; [tauto|].
  destruct (Z.eqb_spec (getCost (getCostmap costmap_ros) map_x map_y) NO_INFORMATION)
    as [Hn|Hn].
  - destruct (isTrackingUnknown costmap_ros); split; try tauto; try discriminate;
      try (intros [?|[?|[_ ?]]]; congruence).
  - split; [discriminate|]. intros [?|[?|[? _]]]; congruence.
Qed.

Lemma findPathCosts_loop_length (data : CriticData F D) (costmap_ros : Costmap2DROS D)
    (idx remaining : nat) (valid : list bool) :
  length (findPathCosts_loop data costmap_ros idx remaining valid) = length valid.
Proof.
  revert idx valid. induction remaining as [|n IH]; intros idx valid; cbn; [reflexivity|].
  rewrite IH. apply length_insert.
Qed.

Lemma findPathCosts_loop_before (data : CriticData F D) (costmap_ros : Costmap2DROS D)
    (idx remaining : nat) (valid : list bool) (k : nat) :
  k < idx → findPathCosts_loop data costmap_ros idx remaining valid !! k = valid !! k.
Proof.
  revert idx valid. induction remaining as [|n IH]; intros idx valid Hk; cbn; [reflexivity|].
  rewrite IH by lia. apply list_lookup_insert_ne. lia.
Qed.

Lemma findPathCosts_loop_lookup (data : CriticData F D) (costmap_ros : Costmap2DROS D)
    (idx remaining : nat) (valid : list bool) (k : nat) :
  idx ≤ k < idx + remaining → k < length valid →
  findPathCosts_loop data costmap_ros idx remaining valid !! k
  = Some (segment_valid costmap_ros (path_x (path data) !!! k) (path_y (path data) !!! k)).
Proof.
  revert idx valid. induction remaining as [|n IH]; intros idx valid Hk Hlen; [lia|].
  cbn. destruct (decide (k = idx)) as [->|Hne].
  - rewrite findPathCosts_loop_before by lia.
    apply list_lookup_insert_eq. assumption.
  - apply IH; [lia|]. rewrite length_insert. assumption.
Qed.

(** C5: for a path of at least one point, the mask has one entry per
    path segment (path length minus one), and the entry of a segment is
    false exactly when the cell under the segment's start point is
    outside the grid, lethal, inscribed-inflated, or unknown while
    unknown space is not tracked; a pass whose cache is not yet computed
    gets exactly this mask. *)
Theorem path_validity_mask (data : CriticData F D) (costmap_ros : Costmap2DROS D) :
  1 ≤ length (path_x (path data)) →
  length (path_y (path data)) = length (path_x (path data)) →
  (Z.of_nat (length (path_x (path data))) < 2 ^ 63 - 64)%Z →
  ∃ valid,
    findPathCosts data costmap_ros
      = Ok {| trajectories := trajectories data; path := path data; goal := goal data;
              path_pts_valid := Some valid;
              furthest_reached_path_point := furthest_reached_path_point data |} ∧
    (path_pts_valid data = None →
     setPathCostsIfNotSet data costmap_ros = findPathCosts data costmap_ros) ∧
    length valid = length (path_x (path data)) - 1 ∧
    ∀ idx, idx < length (path_x (path data)) - 1 →
      ∃ px py b, path_x (path data) !! idx = Some px ∧
                 path_y (path data) !! idx = Some py ∧
                 valid !! idx = Some b ∧
                 (b = false ↔ segment_blocked costmap_ros px py) ∧
                 (b = true ↔ ¬ segment_blocked costmap_ros px py).
Proof.
  intros Hne Hleny Hbound.
  assert (Hcount : path_segments_count data
                   = Z.of_nat (length (path_x (path data)) - 1)).
  { unfold path_segments_count. rewrite Z.mod_small; lia. }
  unfold findPathCosts. rewrite Hcount.
  rewrite Nat2Z.id. eexists. split; [reflexivity|]. split.
  { intros Hnone. unfold setPathCostsIfNotSet, findPathCosts.
    rewrite Hnone, Hcount, Nat2Z.id. reflexivity. }
  split.
  { rewrite findPathCosts_loop_length, length_replicate. reflexivity. }
  intros idx Hidx.
  destruct (lookup_lt_is_Some_2 (path_x (path data)) idx) as [px Hpx]; [lia|].
  destruct (lookup_lt_is_Some_2 (path_y (path data)) idx) as [py Hpy]; [lia|].
  exists px, py, (segment_valid costmap_ros px py).
  split; [assumption|]. split; [assumption|]. split.
  - rewrite findPathCosts_loop_lookup; [|lia|rewrite length_replicate; lia].
    rewrite (list_lookup_total_correct _ _ _ Hpx).
    rewrite (list_lookup_total_correct _ _ _ Hpy). reflexivity.
  - pose proof (segment_valid_false_iff costmap_ros px py) as Hiff.
    split; [exact Hiff|].
    destruct (segment_valid costmap_ros px py); split; try tauto; try discriminate.
    intros _ Hblocked. apply Hiff in Hblocked. discriminate.
Qed.

End PathCosts.

(** The theorem on the three-point path over a strip whose cells cost 0,
    254 and 255. *)
Lemma path_validity_mask_witness :
  ∃ valid,
    findPathCosts straight_data strip_costmap_ros
      = Ok {| trajectories := no_trajectories; path := straight_path;
              goal := pose_at 5%Q 5%Q; path_pts_valid := Some valid;
              furthest_reached_path_point := None |} ∧
    (path_pts_valid straight_data = None →
     setPathCostsIfNotSet straight_data strip_costmap_ros
     = findPathCosts straight_data strip_costmap_ros) ∧
    length valid = 3 - 1 ∧
    ∀ idx, idx < 3 - 1 →
      ∃ px py b, path_x straight_path !! idx = Some px ∧
                 path_y straight_path !! idx = Some py ∧
                 valid !! idx = Some b ∧
                 (b = false ↔ segment_blocked strip_costmap_ros px py) ∧
                 (b = true ↔ ¬ segment_blocked strip_costmap_ros px py).
Proof.
  exact (path_validity_mask straight_data strip_costmap_ros
           ltac:(cbv; lia) eq_refl ltac:(cbv; reflexivity)).
Defined.

Example path_validity_mask_values :
  path_pts_valid <$>
    (match setPathCostsIfNotSet straight_data strip_costmap_ros with
     | Ok data => Some data
     | Throw _ => None
     end) = Some (Some [true; false]).
Proof. vm_compute. reflexivity. Qed.

(** ** DriveOnHeading configuration *)

Section DriveOnHeadingProperties.
Context {D : Type} {opsD : FloatOps D} {ordD : FloatOrder D} {signD : FloatSign D}.

(** C9, as the code has it: with a node to configure from, limits of the
    wrong sign do not make [onConfigure] throw: it returns, one message
    is added to the log, at error severity, and the limits become the
    absolute value of the configured acceleration limit and the negated
    absolute value of the configured deceleration limit.  A configured
    acceleration limit that is not zero comes out positive and a
    configured deceleration limit that is not zero comes out negative,
    so that the check that flagged the pair accepts them. *)
Theorem onConfigure_corrects_limit_signs (this : DriveOnHeading D) (node : Node D) :
  node_ this = Some node →
  (fle (configured_acceleration_limit this node) (flit 0%Q) = true ∨
   fle (flit 0%Q) (configured_deceleration_limit this node) = true) →
  ∃ this',
    onConfigure this = Ok this' ∧
    logger_ this' = logger_ this ++ [(ERROR, limits_message)] ∧
    acceleration_limit_ this' = fabs (configured_acceleration_limit this node) ∧
    deceleration_limit_ this'
      = fneg (fabs (configured_deceleration_limit this node)) ∧
    (flt (configured_acceleration_limit this node) (flit 0%Q) = true ∨
     flt (flit 0%Q) (configured_acceleration_limit this node) = true →
     flt (flit 0%Q) (acceleration_limit_ this') = true ∧
     fle (acceleration_limit_ this') (flit 0%Q) = false) ∧
    (flt (configured_deceleration_limit this node) (flit 0%Q) = true ∨
     flt (flit 0%Q) (configured_deceleration_limit this node) = true →
     flt (deceleration_limit_ this') (flit 0%Q) = true ∧
     fle (flit 0%Q) (deceleration_limit_ this') = false).
Proof.
  intros Hnode Hwrong. unfold onConfigure. rewrite Hnode.
  fold (configured_acceleration_limit this node).
  fold (configured_deceleration_limit this node).
  replace (fle (configured_acceleration_limit this node) (flit 0%Q)
           || fle (flit 0%Q) (configured_deceleration_limit this node)) with true
    by (symmetry; apply orb_true_iff; exact Hwrong).
  eexists. split; [reflexivity|]. cbn.
  split; [reflexivity|]. split; [reflexivity|]. split; [reflexivity|].
  assert (Hvalid : ∀ a b : D, flt a b = true → fle b a = false).
  { intros a b Hlt. destruct (fle b a) eqn:Hle; [|reflexivity].
    rewrite (fle_not_flt _ _ Hle) in Hlt. discriminate. }
  split.
  - intros Hnonzero. pose proof (fabs_positive _ Hnonzero) as Hpos.
    split; [exact Hpos|]. apply Hvalid, Hpos.
  - intros Hnonzero.
    pose proof (fneg_negative _ (fabs_positive _ Hnonzero)) as Hneg.
    split; [exact Hneg|]. apply Hvalid, Hneg.
Qed.

End DriveOnHeadingProperties.

(** The theorem on a behavior configured with acceleration limit -3 and
    deceleration limit 2: the limits become 3 and -2. *)
Lemma onConfigure_corrects_limit_signs_witness :
  ∃ this',
    onConfigure misconfigured_behavior = Ok this' ∧
    logger_ this' = [(ERROR, limits_message)] ∧
    acceleration_limit_ this' = 3%Q ∧
    deceleration_limit_ this' = (-2)%Q ∧
    (flt (-3)%Q 0%Q = true ∨ flt 0%Q (-3)%Q = true →
     flt 0%Q (acceleration_limit_ this') = true ∧
     fle (acceleration_limit_ this') 0%Q = false) ∧
    (flt 2%Q 0%Q = true ∨ flt 0%Q 2%Q = true →
     flt (deceleration_limit_ this') 0%Q = true ∧
     fle 0%Q (deceleration_limit_ this') = false).
Proof.
  exact (onConfigure_corrects_limit_signs misconfigured_behavior misconfigured_node
           eq_refl (or_introl eq_refl)).
Defined.

(** C9 as stated fails at limits 0 and 0: configuration completes, but
    the stored limits are still 0 and 0, which the same check flags
    again, and what is logged is an error, not a warning. *)
Lemma onConfigure_zero_limits_stay_invalid :
  ∃ this',
    onConfigure zero_limits_behavior = Ok this' ∧
    acceleration_limit_ this' = 0%Q ∧
    deceleration_limit_ this' = 0%Q ∧
    fle (acceleration_limit_ this') (flit 0%Q)
      || fle (flit 0%Q) (deceleration_limit_ this') = true ∧
    logger_ this' = [(ERROR, limits_message)] ∧
    ∀ message, (WARN, message) ∉ logger_ this'.
Proof.
  eexists. split; [vm_compute; reflexivity|]. cbn.
  repeat split.
  intros message Hin. apply list_elem_of_singleton in Hin. discriminate.
Qed.

Example onConfigure_values :
  (match onConfigure misconfigured_behavior with
   | Ok this' => Some (acceleration_limit_ this', deceleration_limit_ this',
                       minimum_speed_ this', length (logger_ this'))
   | Throw _ => None
   end) = Some (3%Q, (-2)%Q, (1 # 10)%Q, 1) ∧
  onConfigure {| node_ := None; behavior_name_ := "backup"; logger_ := [];
                 simulate_ahead_time_ := 0%Q; acceleration_limit_ := 0%Q;
                 deceleration_limit_ := 0%Q; minimum_speed_ := 0%Q |}
  = Throw "Failed to lock node".
Proof. split; vm_compute; reflexivity. Qed.

(** ** The furthest reached path point *)

Section FurthestReachedPoint.
Context {F D : Type} {opsF : FloatOps F} {opsD : FloatOps D} {prec : Precisions F D}.
Context {ordF : FloatOrder F}.

Lemma flt_irrefl_of_flt (a b : F) : flt a b = true → flt a a = false.
Proof.
  intros Hlt. apply fle_not_flt. exact (fle_refl_l _ _ (flt_fle _ _ Hlt)).
Qed.

(** The inner loop either never finds a distance below the running
    minimum, or ends on the first index of least distance in its range. *)
Lemma nearest_scan_spec (dist : nat → F) (j remaining : nat) (m : F) (id : nat) :
  let '(m', id') := nearest_scan dist j remaining m id in
  ((m', id') = (m, id) ∧ ∀ t, j ≤ t < j + remaining → flt (dist t) m = false) ∨
  (j ≤ id' < j + remaining ∧ m' = dist id' ∧ flt m' m = true ∧
   (∀ t, j ≤ t < j + remaining → flt (dist t) m' = false) ∧
   (∀ t, j ≤ t < id' → fle (dist t) m' = false)).
Proof.
  revert j m id. induction remaining as [|n IH]; intros j m id; cbn.
  { left. split; [reflexivity|]. intros t Ht. lia. }
  destruct (flt (dist j) m) eqn:Hlt.
  - specialize (IH (S j) (dist j) j).
    destruct (nearest_scan dist (S j) n (dist j) j) as [m' id'].
    right. destruct IH as [[[= -> ->] Hnone]|(Hid & -> & Hlt' & Hmin & Hfirst)].
    + split; [lia|]. split; [reflexivity|]. split; [assumption|]. split.
      * intros t Ht. destruct (decide (t = j)) as [->|Hne].
        -- exact (flt_irrefl_of_flt _ _ Hlt).
        -- apply Hnone. lia.
      * intros t Ht. lia.
    + split; [lia|]. split; [reflexivity|]. split.
      { exact (fle_flt_trans _ _ _ (flt_fle _ _ Hlt') Hlt). }
      split.
      * intros t Ht. destruct (decide (t = j)) as [->|Hne].
        -- apply fle_not_flt, flt_fle, Hlt'.
        -- apply Hmin. lia.
      * intros t Ht. destruct (decide (t = j)) as [->|Hne].
        -- destruct (fle (dist j) (dist id')) eqn:Hle; [|reflexivity].
           pose proof (fle_flt_trans _ _ _ Hle Hlt') as Hjj.
           rewrite (flt_irrefl_of_flt _ _ Hlt) in Hjj. discriminate.
        -- apply Hfirst. lia.
  - specialize (IH (S j) m id).
    destruct (nearest_scan dist (S j) n m id) as [m' id'].
    destruct IH as [[[= -> ->] Hnone]|(Hid & -> & Hlt' & Hmin & Hfirst)].
    + left. split; [reflexivity|]. intros t Ht.
      destruct (decide (t = j)) as [->|Hne]; [assumption|]. apply Hnone. lia.
    + right. split; [lia|]. split; [reflexivity|]. split; [assumption|]. split.
      * intros t Ht. destruct (decide (t = j)) as [->|Hne].
        -- exact (flt_cotrans _ _ _ Hlt' Hlt).
        -- apply Hmin. lia.
      * intros t Ht. destruct (decide (t = j)) as [->|Hne].
        -- destruct (fle (dist j) (dist id')) eqn:Hle; [|reflexivity].
           pose proof (fle_flt_trans _ _ _ Hle Hlt') as Hjm. congruence.
        -- apply Hfirst. lia.
Qed.

(** What one row contributes: 0 when no distance from the cursor on is
    below FLT_MAX, and otherwise the first index of least distance at or
    beyond the cursor. *)
Lemma row_min_id_spec (data : CriticData F D) (i cursor : nat) :
  let n_cols := length (path_x (path data)) in
  let id := row_min_id data i cursor in
  (id = 0 ∧ ∀ t, cursor ≤ t < n_cols → flt (dists data i t) FLT_MAX = false) ∨
  (cursor ≤ id < n_cols ∧ flt (dists data i id) FLT_MAX = true ∧
   (∀ t, cursor ≤ t < n_cols → flt (dists data i t) (dists data i id) = false) ∧
   (∀ t, cursor ≤ t < id → fle (dists data i t) (dists data i id) = false)).
Proof.
  intros n_cols id. subst id. unfold row_min_id. fold n_cols.
  pose proof (nearest_scan_spec (dists data i) cursor (n_cols - cursor) FLT_MAX 0) as Hscan.
  destruct (nearest_scan (dists data i) cursor (n_cols - cursor) FLT_MAX 0) as [m' id'].
  cbn. destruct Hscan as [[[= -> ->] Hnone]|(Hid & -> & Hlt & Hmin & Hfirst)].
  - left. split; [reflexivity|]. intros t Ht. apply Hnone. lia.
  - right. split; [lia|]. split; [assumption|]. split.
    + intros t Ht. apply Hmin. lia.
    + exact Hfirst.
Qed.

Lemma rows_scan_snoc (data : CriticData F D) (i remaining cursor : nat) :
  rows_scan data i (S remaining) cursor
  = Nat.max (rows_scan data i remaining cursor)
      (row_min_id data (i + remaining) (rows_scan data i remaining cursor)).
Proof.
  revert i cursor. induction remaining as [|n IH]; intros i cursor.
  - cbn. rewrite Nat.add_0_r. reflexivity.
  - change (rows_scan data i (S (S n)) cursor)
      with (rows_scan data (S i) (S n) (Nat.max cursor (row_min_id data i cursor))).
    rewrite IH. cbn [rows_scan]. replace (S i + n) with (i + S n) by lia. reflexivity.
Qed.

(** The cursor of the next row is the larger of this row's cursor and of
    the index this row found. *)
Lemma cursor_at_S (data : CriticData F D) (i : nat) :
  cursor_at data (S i)
  = Nat.max (cursor_at data i) (row_min_id data i (cursor_at data i)).
Proof. unfold cursor_at. rewrite rows_scan_snoc. reflexivity. Qed.




(** The cursor stays inside the path, so the inner loop, which runs
    until [j] equals [n_cols], ends. *)
Lemma cursor_at_bound (data : CriticData F D) (i : nat) :
  cursor_at data i = 0 ∨ cursor_at data i < length (path_x (path data)).
Proof.
  induction i as [|i IH]; [left; reflexivity|]. rewrite cursor_at_S.
  destruct (row_min_id_spec data i (cursor_at data i)) as [[-> _]|[Hin _]]; lia.
Qed.


End FurthestReachedPoint.



(** ** The smoothing filter *)

Section SavitskyGolay.
Context {F : Type} {opsF : FloatOps F}.

Lemma window_sample_nonneg (num_seq : nat) (init : list F) (h0 h1 h2 h3 : F) (k : Z) :
  (0 ≤ k)%Z →
  window_sample num_seq init h0 h1 h2 h3 k = init !!! Nat.min (Z.to_nat k) num_seq.
Proof.
  intros Hk. unfold window_sample.
  destruct (Z.eqb_spec k (-4)); [lia|]. destruct (Z.eqb_spec k (-3)); [lia|].
  destruct (Z.eqb_spec k (-2)); [lia|]. destruct (Z.eqb_spec k (-1)); [lia|].
  reflexivity.
Qed.

Lemma window_at_S (num_seq : nat) (init : list F) (h0 h1 h2 h3 : F) (idx : nat)
    (a b c d e f g h i : F) :
  [a; b; c; d; e; f; g; h; i] = window_at num_seq init h0 h1 h2 h3 idx →
  [b; c; d; e; f; g; h; i;
   if idx + 5 <? num_seq then init !!! (idx + 5) else init !!! num_seq]
  = window_at num_seq init h0 h1 h2 h3 (S idx).
Proof.
  unfold window_at. cbn [fmap list_fmap].
  intros [= -> -> -> -> -> -> -> -> ->].
  repeat (f_equal; [f_equal; lia|]). f_equal.
  rewrite window_sample_nonneg by lia.
  destruct (Nat.ltb_spec (idx + 5) num_seq); f_equal; lia.
Qed.

Lemma applyFilterOverAxis_loop_spec (num_seq : nat) (init : list F) (h0 h1 h2 h3 : F)
    (remaining idx : nat) (a b c d e f g h i : F) (sequence : list F) :
  [a; b; c; d; e; f; g; h; i] = window_at num_seq init h0 h1 h2 h3 idx →
  length (applyFilterOverAxis_loop num_seq init idx remaining a b c d e f g h i sequence)
    = length sequence ∧
  (∀ k, k < idx ∨ idx + remaining ≤ k →
     applyFilterOverAxis_loop num_seq init idx remaining a b c d e f g h i sequence !! k
     = sequence !! k) ∧
  (∀ k, idx ≤ k < idx + remaining → k < length sequence →
     applyFilterOverAxis_loop num_seq init idx remaining a b c d e f g h i sequence !! k
     = Some (applyFilter (window_at num_seq init h0 h1 h2 h3 k))).
Proof.
  revert idx a b c d e f g h i sequence.
  induction remaining as [|n IH]; intros idx a b c d e f g h i sequence Hwin.
  { cbn. split; [reflexivity|]. split; [reflexivity|]. intros k Hk. lia. }
  cbn [applyFilterOverAxis_loop].
  destruct (IH (S idx) _ _ _ _ _ _ _ _ _
              (<[idx := applyFilter [a; b; c; d; e; f; g; h; i]]> sequence)
              (window_at_S _ _ _ _ _ _ _ _ _ _ _ _ _ _ _ _ Hwin))
    as (Hlen & Hout & Hin).
  rewrite length_insert in Hlen, Hin.
  split; [exact Hlen|]. split.
  - intros k Hk. rewrite Hout by lia. apply list_lookup_insert_ne. lia.
  - intros k Hk Hklen. destruct (decide (k = idx)) as [->|Hne].
    + rewrite Hout by lia. rewrite list_lookup_insert_eq by assumption.
      rewrite Hwin. reflexivity.
    + apply Hin; [lia|assumption].
Qed.

(** One axis: past the early return every element but the last is
    replaced by its filtered value. *)
Lemma applyFilterOverAxis_spec (num_seq : nat) (sequence : list F) (h0 h1 h2 h3 : F) :
  4 ≤ num_seq → length sequence = S num_seq →
  axis_filtered num_seq sequence h0 h1 h2 h3
    (applyFilterOverAxis num_seq sequence sequence h0 h1 h2 h3).
Proof.
  intros Hnum Hlen. unfold applyFilterOverAxis, axis_filtered.
  assert (Hwin : [h0; h1; h2; h3; sequence !!! 0; sequence !!! 1; sequence !!! 2;
                  sequence !!! 3; sequence !!! 4]
                 = window_at num_seq sequence h0 h1 h2 h3 0).
  { unfold window_at. cbn [fmap list_fmap].
    repeat f_equal; try reflexivity;
      rewrite window_sample_nonneg by lia; f_equal; lia. }
  destruct (applyFilterOverAxis_loop_spec num_seq sequence h0 h1 h2 h3 num_seq 0
              _ _ _ _ _ _ _ _ _ sequence Hwin) as (Hl & Hout & Hin).
  split; [exact Hl|]. split.
  - intros idx Hidx. apply Hin; lia.
  - apply Hout. lia.
Qed.

Lemma num_sequences_small (control_sequence : ControlSequence F) :
  1 ≤ length (cs_vx control_sequence) →
  (Z.of_nat (length (cs_vx control_sequence)) ≤ 2 ^ 32)%Z →
  num_sequences control_sequence = length (cs_vx control_sequence) - 1.
Proof.
  intros Hne Hbound. unfold num_sequences. rewrite Z.mod_small by lia. lia.
Qed.

End SavitskyGolay.

Section SavitskyGolayThreshold.
Context {F : Type} {opsF : FloatOps F}.

(** C3, as the code has it: the early return is taken when the sequence
    length minus one is below 20, so a sequence of 1 to 20 steps and the
    control history are returned as they are; from 21 steps on, on each of
    vx, vy and wz, every element but the last becomes the 9-point filter
    of the window around it (the four history entries to the left of the
    sequence, the last element repeated to its right), the last element
    is kept, and the history advances by the filtered control at the
    shift offset. *)
Theorem savitskyGolayFilter_threshold_and_windows
    (control_sequence : ControlSequence F) (control_history : ControlHistory F)
    (settings : OptimizerSettings) :
  (1 ≤ length (cs_vx control_sequence) ≤ 20 →
   savitskyGolayFilter control_sequence control_history settings
   = (control_sequence, control_history)) ∧
  (21 ≤ length (cs_vx control_sequence) →
   (Z.of_nat (length (cs_vx control_sequence)) ≤ 2 ^ 32)%Z →
   length (cs_vy control_sequence) = length (cs_vx control_sequence) →
   length (cs_wz control_sequence) = length (cs_vx control_sequence) →
   ∃ filtered history,
     savitskyGolayFilter control_sequence control_history settings
     = (filtered, history) ∧
     axis_filtered (length (cs_vx control_sequence) - 1) (cs_vx control_sequence)
       (ctrl_vx (hist_0 control_history)) (ctrl_vx (hist_1 control_history))
       (ctrl_vx (hist_2 control_history)) (ctrl_vx (hist_3 control_history))
       (cs_vx filtered) ∧
     axis_filtered (length (cs_vx control_sequence) - 1) (cs_vy control_sequence)
       (ctrl_vy (hist_0 control_history)) (ctrl_vy (hist_1 control_history))
       (ctrl_vy (hist_2 control_history)) (ctrl_vy (hist_3 control_history))
       (cs_vy filtered) ∧
     axis_filtered (length (cs_vx control_sequence) - 1) (cs_wz control_sequence)
       (ctrl_wz (hist_0 control_history)) (ctrl_wz (hist_1 control_history))
       (ctrl_wz (hist_2 control_history)) (ctrl_wz (hist_3 control_history))
       (cs_wz filtered) ∧
     history
     = {| hist_0 := hist_1 control_history;
          hist_1 := hist_2 control_history;
          hist_2 := hist_3 control_history;
          hist_3 :=
            {| ctrl_vx := cs_vx filtered
                            !!! (if shift_control_sequence settings then 1 else 0);
               ctrl_vy := cs_vy filtered
                            !!! (if shift_control_sequence settings then 1 else 0);
               ctrl_wz := cs_wz filtered
                            !!! (if shift_control_sequence settings then 1 else 0) |} |}).
Proof.
  split.
  - intros Hlen. unfold savitskyGolayFilter.
    rewrite num_sequences_small by lia.
    destruct (Nat.ltb_spec (length (cs_vx control_sequence) - 1) 20); [reflexivity|lia].
  - intros Hlen Hbound Hvy Hwz. unfold savitskyGolayFilter.
    pose proof (num_sequences_small control_sequence ltac:(lia) Hbound) as Hnum.
    rewrite Hnum.
    destruct (Nat.ltb_spec (length (cs_vx control_sequence) - 1) 20); [lia|].
    unfold filter_trajectories. rewrite Hnum.
    eexists _, _. split; [reflexivity|]. cbn [cs_vx cs_vy cs_wz].
    split; [|split; [|split; [|reflexivity]]];
      apply applyFilterOverAxis_spec; lia.
Qed.

End SavitskyGolayThreshold.

(** The theorem on the impulse of 20 steps (returned as it is) and on the
    impulse of 21 steps (filtered). *)
Lemma savitskyGolayFilter_threshold_and_windows_witness :
  savitskyGolayFilter (impulse 20) zero_history shifting = (impulse 20, zero_history) ∧
  ∃ filtered history,
    savitskyGolayFilter (impulse 21) zero_history shifting = (filtered, history) ∧
    axis_filtered 20 (cs_vx (impulse 21)) 0%Q 0%Q 0%Q 0%Q (cs_vx filtered) ∧
    axis_filtered 20 (cs_vy (impulse 21)) 0%Q 0%Q 0%Q 0%Q (cs_vy filtered) ∧
    axis_filtered 20 (cs_wz (impulse 21)) 0%Q 0%Q 0%Q 0%Q (cs_wz filtered) ∧
    history
    = {| hist_0 := zero_control; hist_1 := zero_control; hist_2 := zero_control;
         hist_3 := {| ctrl_vx := cs_vx filtered !!! 1;
                      ctrl_vy := cs_vy filtered !!! 1;
                      ctrl_wz := cs_wz filtered !!! 1 |} |}.
Proof.
  split.
  - exact (proj1 (savitskyGolayFilter_threshold_and_windows
                    (impulse 20) zero_history shifting) ltac:(cbv; lia)).
  - exact (proj2 (savitskyGolayFilter_threshold_and_windows
                    (impulse 21) zero_history shifting)
             ltac:(cbv; lia) ltac:(cbv; discriminate) eq_refl eq_refl).
Defined.

(** C3 as stated fails at a horizon of exactly 20 steps: the sequence is
    returned unfiltered, although filtering it would change it (its first
    vx would become 59/231). *)
Lemma savitskyGolayFilter_skips_horizon_20 :
  length (cs_vx (impulse 20)) = 20 ∧
  savitskyGolayFilter (impulse 20) zero_history shifting = (impulse 20, zero_history) ∧
  cs_vx (filter_trajectories (impulse 20) zero_history shifting).1 !! 0
    = Some (59 # 231)%Q ∧
  cs_vx (savitskyGolayFilter (impulse 20) zero_history shifting).1 !! 0 = Some 1%Q ∧
  savitskyGolayFilter (impulse 20) zero_history shifting
    ≠ filter_trajectories (impulse 20) zero_history shifting.
Proof.
  split; [reflexivity|]. split; [vm_compute; reflexivity|].
  split; [vm_compute; reflexivity|]. split; [vm_compute; reflexivity|].
  intros Heq. apply (f_equal (λ r, cs_vx r.1 !! 0)) in Heq.
  vm_compute in Heq. discriminate.
Qed.

Example savitskyGolayFilter_values :
  cs_vx (savitskyGolayFilter (impulse 21) zero_history shifting).1 !! 0
    = Some (59 # 231)%Q ∧
  cs_vx (savitskyGolayFilter (impulse 21) zero_history shifting).1 !! 4
    = Some (-1 # 11)%Q ∧
  cs_vx (savitskyGolayFilter (impulse 21) zero_history shifting).1 !! 5 = Some 0%Q ∧
  hist_3 (savitskyGolayFilter (impulse 21) zero_history shifting).2
    = {| ctrl_vx := (18 # 77)%Q; ctrl_vy := 0%Q; ctrl_wz := (18 # 77)%Q |}.
Proof. repeat split; vm_compute; reflexivity. Qed.

(** ** The warm-start shift *)

Section ShiftColumns.
Context {F : Type} {opsF : FloatOps F}.

Lemma copy_elem_nat (data : list F) (src dst : nat) :
  copy_elem data (Z.of_nat src) (Z.of_nat dst) = <[dst := data !!! src]> data.
Proof. unfold copy_elem. rewrite !Nat2Z.id. reflexivity. Qed.

(** std::copy between two disjoint ranges inside the buffer. *)
Lemma std_copy_spec (n : nat) (data : list F) (src dst : nat) :
  src + n ≤ length data → dst + n ≤ length data →
  src + n ≤ dst ∨ dst + n ≤ src →
  length (std_copy data (Z.of_nat src) (Z.of_nat dst) n) = length data ∧
  ∀ i, std_copy data (Z.of_nat src) (Z.of_nat dst) n !! i
       = if decide (dst ≤ i < dst + n) then data !! (i - dst + src) else data !! i.
Proof.
  revert data src dst. induction n as [|n IH]; intros data src dst Hsrc Hdst Hdisj.
  { cbn. split; [reflexivity|]. intros i. rewrite decide_False by lia. reflexivity. }
  cbn [std_copy]. rewrite copy_elem_nat.
  replace (Z.of_nat src + 1)%Z with (Z.of_nat (S src)) by lia.
  replace (Z.of_nat dst + 1)%Z with (Z.of_nat (S dst)) by lia.
  destruct (IH (<[dst := data !!! src]> data) (S src) (S dst)) as [Hlen Hlook];
    [rewrite length_insert; lia|rewrite length_insert; lia|lia|].
  rewrite length_insert in Hlen.
  split; [exact Hlen|]. intros i. rewrite Hlook.
  destruct (decide (S dst ≤ i < S dst + n)) as [Hin|Hout].
  - rewrite decide_True by lia. rewrite list_lookup_insert_ne by lia. f_equal. lia.
  - destruct (decide (i = dst)) as [->|Hne].
    + rewrite decide_True by lia. rewrite list_lookup_insert_eq by lia.
      replace (dst - dst + src) with src by lia. symmetry.
      apply list_lookup_lookup_total_lt. lia.
    + rewrite decide_False by lia. apply list_lookup_insert_ne. lia.
Qed.

Lemma std_copy_copies_right (span L : nat) :
  copies_right
    (λ p data, std_copy data p (p + 1 * Z.of_nat span)%Z (Z.to_nat (Z.of_nat span)))
    span L.
Proof.
  intros b cur Hlen Hfit. rewrite Nat2Z.id.
  replace (Z.of_nat (b * span) + 1 * Z.of_nat span)%Z
    with (Z.of_nat ((b + 1) * span)) by lia.
  destruct (std_copy_spec span cur (b * span) ((b + 1) * span)) as [Hl Hlook]; try lia.
  split; [lia|]. intros i. rewrite Hlook.
  destruct (decide ((b + 1) * span ≤ i < (b + 1) * span + span)) as [Hin|Hout].
  - rewrite decide_True by lia. f_equal. lia.
  - rewrite decide_False by lia. reflexivity.
Qed.

Lemma std_copy_copies_left (span L : nat) :
  copies_left
    (λ p data, std_copy data p (p + -1 * Z.of_nat span)%Z (Z.to_nat (Z.of_nat span)))
    span L.
Proof.
  intros b cur Hlen Hb Hfit. rewrite Nat2Z.id.
  replace (Z.of_nat (b * span) + -1 * Z.of_nat span)%Z
    with (Z.of_nat ((b - 1) * span)) by nia.
  assert (Hsub : (b - 1) * span + span = b * span) by nia.
  destruct (std_copy_spec span cur (b * span) ((b - 1) * span)) as [Hl Hlook]; try lia.
  split; [lia|]. intros i. rewrite Hlook.
  destruct (decide ((b - 1) * span ≤ i < (b - 1) * span + span)) as [Hin|Hout].
  - rewrite decide_True by lia. f_equal. lia.
  - rewrite decide_False by lia. reflexivity.
Qed.

Lemma shift_right_loop (body : Z → list F → list F) (span L : nat) (data : list F) :
  1 ≤ span → copies_right body span L → length data = L →
  ∀ (b fuel : nat) (cur : list F),
    b < fuel → (b + 2) * span ≤ L → length cur = L →
    (∀ i, i < (b + 2) * span → cur !! i = data !! i) →
    (∀ i, (b + 2) * span ≤ i < L → cur !! i = data !! (i - span)) →
    ∃ p cur',
      shift_while fuel body (Z.of_nat span) (Z.of_nat (b * span)) 0 cur = Some (p, cur') ∧
      length (body p cur') = L ∧
      ∀ i, i < L → body p cur' !! i = data !! shifted_offset span L 1 i.
Proof.
  intros Hspan Hbody Hdata. unfold shifted_offset. cbn [Z.eqb Pos.eqb].
  induction b as [|b IH]; intros fuel cur Hfuel Hfit Hcur Hlow Hhigh;
    (destruct fuel as [|fuel]; [lia|]); cbn [shift_while].
  - cbn [Nat.mul Z.of_nat Z.eqb]. exists 0%Z, cur. split; [reflexivity|].
    destruct (Hbody 0 cur Hcur Hfit) as [Hlen Hlook]. cbn [Nat.mul Z.of_nat] in Hlen, Hlook.
    split; [exact Hlen|]. intros i Hi. rewrite Hlook.
    destruct (decide ((0 + 1) * span ≤ i < (0 + 2) * span)) as [Hin|Hout].
    + rewrite decide_True by lia. apply Hlow. lia.
    + destruct (decide (span ≤ i)).
      * apply Hhigh. lia.
      * apply Hlow. lia.
  - destruct (Z.eqb_spec (Z.of_nat (S b * span)) 0) as [Hz|_]; [lia|].
    replace (Z.of_nat (S b * span) - Z.of_nat span)%Z with (Z.of_nat (b * span)) by lia.
    destruct (Hbody (S b) cur Hcur Hfit) as [Hlen Hlook].
    apply IH; [lia|lia|exact Hlen| |].
    + intros i Hi. rewrite Hlook.
      destruct (decide ((S b + 1) * span ≤ i < (S b + 2) * span)); [lia|].
      apply Hlow. lia.
    + intros i Hi. rewrite Hlook.
      destruct (decide ((S b + 1) * span ≤ i < (S b + 2) * span)).
      * apply Hlow. lia.
      * apply Hhigh. lia.
Qed.

Lemma shift_left_loop (body : Z → list F → list F) (span nblocks : nat) (data : list F) :
  1 ≤ span → copies_left body span (nblocks * span) → length data = nblocks * span →
  ∀ (k b fuel : nat) (cur : list F),
    k < fuel → 1 ≤ b → b + k + 1 = nblocks → length cur = nblocks * span →
    (∀ i, i < (b - 1) * span → cur !! i = data !! (i + span)) →
    (∀ i, (b - 1) * span ≤ i → cur !! i = data !! i) →
    ∃ p cur',
      shift_while fuel body (- Z.of_nat span) (Z.of_nat (b * span))
        (Z.of_nat ((nblocks - 1) * span)) cur = Some (p, cur') ∧
      length (body p cur') = nblocks * span ∧
      ∀ i, i < nblocks * span →
        body p cur' !! i = data !! shifted_offset span (nblocks * span) (-1) i.
Proof.
  intros Hspan Hbody Hdata. unfold shifted_offset. cbn [Z.eqb].
  induction k as [|k IH]; intros b fuel cur Hfuel Hb Hk Hcur Hlow Hhigh;
    (destruct fuel as [|fuel]; [lia|]); cbn [shift_while].
  - replace (nblocks - 1) with b by lia. rewrite Z.eqb_refl.
    exists (Z.of_nat (b * span)), cur. split; [reflexivity|].
    assert (Hfit : (b + 1) * span ≤ nblocks * span) by nia.
    assert (Htop : b * span + span = nblocks * span) by nia.
    destruct (Hbody b cur Hcur Hb Hfit) as [Hlen Hlook].
    split; [exact Hlen|]. intros i Hi. rewrite Hlook.
    assert (Hbm : (b - 1) * span + span = b * span) by nia.
    destruct (decide ((b - 1) * span ≤ i < b * span)) as [Hin|Hout].
    + rewrite decide_True by lia. apply Hhigh. lia.
    + destruct (decide (i + span < nblocks * span)).
      * apply Hlow. lia.
      * apply Hhigh. lia.
  - assert (Hfit : (b + 1) * span ≤ nblocks * span) by nia.
    assert (Hbm : (b - 1) * span + span = b * span) by nia.
    destruct (Z.eqb_spec (Z.of_nat (b * span)) (Z.of_nat ((nblocks - 1) * span)))
      as [Hz|_]; [nia|].
    replace (Z.of_nat (b * span) - - Z.of_nat span)%Z
      with (Z.of_nat (S b * span)) by lia.
    destruct (Hbody b cur Hcur Hb Hfit) as [Hlen Hlook].
    apply IH; [lia|lia|lia|exact Hlen| |].
    + intros i Hi. replace (S b - 1) with b in Hi by lia. rewrite Hlook.
      destruct (decide ((b - 1) * span ≤ i < b * span)).
      * apply Hhigh. lia.
      * apply Hlow. lia.
    + intros i Hi. replace (S b - 1) with b in Hi by lia. rewrite Hlook.
      destruct (decide ((b - 1) * span ≤ i < b * span)); [lia|].
      apply Hhigh. lia.
Qed.

(** The span of the blocks the function moves: single entries for a
    vector, whole columns otherwise. *)
Lemma shiftColumnsByOnePlace_data (e : ArrayXX F) (direction : Z) (span nblocks : nat) :
  arr_wf e → 1 < arr_size e → direction = 1%Z ∨ direction = (-1)%Z →
  (if decide (arr_cols e = 1 ∨ arr_rows e = 1)
   then span = 1 ∧ nblocks = arr_size e
   else span = arr_rows e ∧ nblocks = arr_cols e) →
  ∃ data',
    shiftColumnsByOnePlace e direction
    = Some (Ok {| arr_rows := arr_rows e; arr_cols := arr_cols e; arr_data := data' |}) ∧
    length data' = arr_size e ∧
    ∀ i, i < arr_size e →
      data' !! i = arr_data e !! shifted_offset span (arr_size e) direction i.
Proof.
  intros Hwf Hsize Hdir Hspan. unfold arr_wf in Hwf. fold (arr_size e) in Hwf.
  unfold shiftColumnsByOnePlace.
  destruct (Z.eqb_spec (Z.of_nat (arr_size e)) 1) as [?|_]; [lia|].
  replace (Z.abs direction =? 1)%Z with true
    by (destruct Hdir as [-> | ->]; reflexivity).
  cbn [negb].
  destruct (Z.ltb_spec 1 (Z.of_nat (arr_size e))) as [_|?]; [|lia].
  rewrite andb_true_r.
  assert (Hsize' : nblocks * span = arr_size e ∧ 1 ≤ span ∧ 2 ≤ nblocks).
  { unfold arr_size in *. destruct (decide (arr_cols e = 1 ∨ arr_rows e = 1));
      destruct Hspan as [-> ->]; nia. }
  destruct Hsize' as (Hmul & Hspan1 & Hblocks).
  assert (Hbranch : (Z.of_nat (arr_cols e) =? 1)%Z || (Z.of_nat (arr_rows e) =? 1)%Z
                    = bool_decide (arr_cols e = 1 ∨ arr_rows e = 1)).
  { destruct (Z.eqb_spec (Z.of_nat (arr_cols e)) 1);
      destruct (Z.eqb_spec (Z.of_nat (arr_rows e)) 1); cbn;
      symmetry; first [apply bool_decide_eq_true|apply bool_decide_eq_false]; lia. }
  rewrite Hbranch. clear Hbranch.
  destruct (decide (arr_cols e = 1 ∨ arr_rows e = 1)) as [Hvec|H2d];
    [rewrite bool_decide_eq_true_2 by assumption
    |rewrite bool_decide_eq_false_2 by assumption];
    destruct Hspan as [-> ->]; destruct Hdir as [-> | ->]; cbn [Z.eqb Pos.eqb].
  - (* a vector, direction 1 *)
    destruct (shift_right_loop (λ p data, copy_elem data p (p + 1)%Z) 1 (arr_size e)
                (arr_data e) ltac:(lia) (std_copy_copies_right 1 (arr_size e)) Hwf
                (arr_size e - 2) (S (arr_size e)) (arr_data e))
      as (p & cur' & Hloop & Hlen & Hlook);
      try lia; try reflexivity; try (intros i Hi; lia).
    replace (Z.of_nat (arr_size e) - 2)%Z with (Z.of_nat ((arr_size e - 2) * 1)) by lia.
    change (Z.of_nat 1) with 1%Z in Hloop. rewrite Hloop.
    eexists. split; [reflexivity|]. split; assumption.
  - (* a vector, direction -1 *)
    destruct (shift_left_loop (λ p data, copy_elem data p (p + -1)%Z) 1 (arr_size e)
                (arr_data e) ltac:(lia)
                ltac:(rewrite Nat.mul_1_r; exact (std_copy_copies_left 1 (arr_size e)))
                ltac:(lia)
                (arr_size e - 2) 1 (S (arr_size e)) (arr_data e))
      as (p & cur' & Hloop & Hlen & Hlook);
      try lia; try reflexivity; try (intros i Hi; lia).
    rewrite Nat.mul_1_r in Hlen, Hlook.
    replace (Z.of_nat (arr_size e) - 1)%Z with (Z.of_nat ((arr_size e - 1) * 1)) by lia.
    change (- Z.of_nat 1)%Z with (-1)%Z in Hloop.
    change (Z.of_nat (1 * 1)) with 1%Z in Hloop. rewrite Hloop.
    eexists. split; [reflexivity|]. split; assumption.
  - (* columns, direction 1 *)
    unfold arr_size in *.
    destruct (shift_right_loop
                (λ p data, std_copy data p (p + 1 * Z.of_nat (arr_rows e))%Z
                             (Z.to_nat (Z.of_nat (arr_rows e))))
                (arr_rows e) (arr_rows e * arr_cols e)
                (arr_data e) Hspan1 (std_copy_copies_right _ _) Hwf
                (arr_cols e - 2) (S (arr_rows e * arr_cols e)) (arr_data e))
      as (p & cur' & Hloop & Hlen & Hlook);
      try nia; try reflexivity; try (intros i Hi; nia).
    replace (Z.of_nat (arr_rows e * arr_cols e) - 2 * Z.of_nat (arr_rows e))%Z
      with (Z.of_nat ((arr_cols e - 2) * arr_rows e)) by nia.
    set (body := λ p data, std_copy data p _ _) in *.
    rewrite Z.mul_1_l in Hlen, Hlook. rewrite Z.mul_1_l, Hloop.
    eexists. split; [reflexivity|]. split; assumption.
  - (* columns, direction -1 *)
    unfold arr_size in *.
    destruct (shift_left_loop
                (λ p data, std_copy data p (p + -1 * Z.of_nat (arr_rows e))%Z
                             (Z.to_nat (Z.of_nat (arr_rows e))))
                (arr_rows e) (arr_cols e)
                (arr_data e) Hspan1 (std_copy_copies_left _ _) ltac:(lia)
                (arr_cols e - 2) 1 (S (arr_rows e * arr_cols e)) (arr_data e))
      as (p & cur' & Hloop & Hlen & Hlook);
      try nia; try reflexivity; try (intros i Hi; nia).
    rewrite Hmul in Hlen, Hlook.
    replace (Z.of_nat (arr_rows e * arr_cols e) - Z.of_nat (arr_rows e))%Z
      with (Z.of_nat ((arr_cols e - 1) * arr_rows e)) by nia.
    set (body := λ p data, std_copy data p _ _) in *.
    assert (Hneg : (-1 * Z.of_nat (arr_rows e) = - Z.of_nat (arr_rows e))%Z) by lia.
    rewrite Hneg in Hlen, Hlook. rewrite Nat.mul_1_l in Hloop.
    rewrite Hneg, Hloop.
    eexists. split; [reflexivity|]. split; assumption.
Qed.

Lemma shifted_offset_column (rows cols : nat) (direction : Z) (i j : nat) :
  direction = 1%Z ∨ direction = (-1)%Z → i < rows → j < cols →
  shifted_offset rows (rows * cols) direction (j * rows + i)
  = shift_source cols direction j * rows + i.
Proof.
  intros [-> | ->] Hi Hj; unfold shifted_offset, shift_source; cbn [Z.eqb Pos.eqb].
  - destruct j as [|j].
    + rewrite decide_False by lia. reflexivity.
    + rewrite decide_True by lia. replace (S j - 1) with j by lia. lia.
  - destruct (decide (j + 1 < cols)) as [Hin|Hlast].
    + assert (rows * (j + 2) ≤ rows * cols) by (apply Nat.mul_le_mono_l; lia).
      rewrite decide_True by lia. lia.
    + assert (cols = j + 1) as -> by lia. rewrite decide_False by lia. reflexivity.
Qed.

Lemma shifted_offset_entry (n : nat) (direction : Z) (i : nat) :
  direction = 1%Z ∨ direction = (-1)%Z →
  shifted_offset 1 n direction i = shift_source n direction i.
Proof.
  intros [-> | ->]; unfold shifted_offset, shift_source; cbn [Z.eqb Pos.eqb];
    repeat case_decide; lia.
Qed.

(** C10, as the code has it: an array of one entry is returned as it is
    whatever the direction; an array of more than one entry makes the
    call throw exactly when the direction is neither 1 nor -1; otherwise,
    when the array has at least two columns, every column of the result
    is the neighbouring column of the input (column j-1 for direction 1,
    column j+1 for direction -1) and the border column (the first for
    direction 1, the last for direction -1) is unchanged; when it has a
    single column, it is the entries of that column that move by one
    place in the same way. *)
Theorem shiftColumnsByOnePlace_columns_or_entries (e : ArrayXX F) (direction : Z) :
  arr_wf e →
  (arr_size e = 1 → shiftColumnsByOnePlace e direction = Some (Ok e)) ∧
  (1 < arr_size e →
   (direction ≠ 1%Z ∧ direction ≠ (-1)%Z →
    shiftColumnsByOnePlace e direction
    = Some (Throw "Invalid direction, only 1 and -1 are valid values.")) ∧
   (direction = 1%Z ∨ direction = (-1)%Z →
    ∃ e',
      shiftColumnsByOnePlace e direction = Some (Ok e') ∧
      arr_rows e' = arr_rows e ∧ arr_cols e' = arr_cols e ∧ arr_wf e' ∧
      (2 ≤ arr_cols e → ∀ i j, i < arr_rows e → j < arr_cols e →
         arr_coeff e' i j = arr_coeff e i (shift_source (arr_cols e) direction j)) ∧
      (arr_cols e = 1 → ∀ i, i < arr_rows e →
         arr_coeff e' i 0 = arr_coeff e (shift_source (arr_rows e) direction i) 0))).
Proof.
  intros Hwf. split; [|intros Hsize; split].
  - intros Hone. unfold shiftColumnsByOnePlace. rewrite Hone. reflexivity.
  - intros [Hne1 Hne2]. unfold shiftColumnsByOnePlace.
    destruct (Z.eqb_spec (Z.of_nat (arr_size e)) 1) as [?|_]; [lia|].
    destruct (Z.eqb_spec (Z.abs direction) 1) as [?|_]; [lia|]. reflexivity.
  - intros Hdir.
    destruct (decide (arr_cols e = 1 ∨ arr_rows e = 1)) as [Hvec|H2d].
    + destruct (shiftColumnsByOnePlace_data e direction 1 (arr_size e) Hwf Hsize Hdir)
        as (data' & Hcall & Hlen & Hlook).
      { rewrite decide_True by assumption. split; reflexivity. }
      eexists. split; [exact Hcall|]. cbn [arr_rows arr_cols].
      split; [reflexivity|]. split; [reflexivity|]. split; [exact Hlen|].
      unfold arr_coeff, arr_size in *. cbn [arr_rows arr_cols arr_data]. split.
      * intros Hcols i j Hi Hj. assert (Hrows : arr_rows e = 1) by lia.
        rewrite Hlook by nia. rewrite shifted_offset_entry by assumption.
        rewrite Hrows in *. f_equal.
        destruct Hdir as [-> | ->]; unfold shift_source; cbn [Z.eqb Pos.eqb];
          repeat case_decide; lia.
      * intros Hcols i Hi. rewrite Hlook by nia.
        rewrite shifted_offset_entry by assumption. rewrite Hcols, Nat.mul_1_r.
        f_equal.
    + destruct (shiftColumnsByOnePlace_data e direction (arr_rows e) (arr_cols e)
                  Hwf Hsize Hdir) as (data' & Hcall & Hlen & Hlook).
      { rewrite decide_False by assumption. split; reflexivity. }
      eexists. split; [exact Hcall|]. cbn [arr_rows arr_cols].
      split; [reflexivity|]. split; [reflexivity|]. split; [exact Hlen|].
      unfold arr_coeff, arr_size in *. cbn [arr_rows arr_cols arr_data]. split.
      * intros Hcols i j Hi Hj. rewrite Hlook by nia.
        rewrite shifted_offset_column by assumption. reflexivity.
      * intros Hcols. lia.
Qed.

End ShiftColumns.

(** The theorem on the 2 x 3 array shifted in direction 1: entry (1, 2)
    of the result is entry (1, 1) of the input. *)
Lemma shiftColumnsByOnePlace_columns_or_entries_witness :
  ∃ e', shiftColumnsByOnePlace grid_2x3 1 = Some (Ok e') ∧
        arr_coeff e' 1 2 = arr_coeff grid_2x3 1 1 ∧
        arr_coeff e' 1 0 = arr_coeff grid_2x3 1 0.
Proof.
  destruct (proj2 (shiftColumnsByOnePlace_columns_or_entries grid_2x3 1 eq_refl)
              ltac:(cbv; lia)) as [_ Hshift].
  destruct (Hshift (or_introl eq_refl)) as (e' & Hcall & _ & _ & _ & Hcols & _).
  exists e'. split; [exact Hcall|]. split.
  - apply (Hcols ltac:(cbv; lia) 1 2); cbv; lia.
  - apply (Hcols ltac:(cbv; lia) 1 0); cbv; lia.
Defined.

(** C10 as stated fails on a column vector: shifting the 3 x 1 array
    (1, 2, 3) in direction 1 gives (1, 1, 2), so its column 0 is not
    unchanged. *)
Lemma shiftColumnsByOnePlace_changes_single_column :
  shiftColumnsByOnePlace column_3 1
    = Some (Ok {| arr_rows := 3; arr_cols := 1; arr_data := [1%Q; 1%Q; 2%Q] |}) ∧
  arr_col {| arr_rows := 3; arr_cols := 1; arr_data := [1%Q; 1%Q; 2%Q] |} 0
    ≠ arr_col column_3 0.
Proof.
  split; [vm_compute; reflexivity|]. vm_compute. discriminate.
Qed.

Example shiftColumnsByOnePlace_values :
  shiftColumnsByOnePlace grid_2x3 1
    = Some (Ok {| arr_rows := 2; arr_cols := 3;
                  arr_data := [1%Q; 2%Q; 1%Q; 2%Q; 3%Q; 4%Q] |}) ∧
  shiftColumnsByOnePlace grid_2x3 (-1)
    = Some (Ok {| arr_rows := 2; arr_cols := 3;
                  arr_data := [3%Q; 4%Q; 5%Q; 6%Q; 5%Q; 6%Q] |}) ∧
  shiftColumnsByOnePlace row_3 (-1)
    = Some (Ok {| arr_rows := 1; arr_cols := 3; arr_data := [2%Q; 3%Q; 3%Q] |}) ∧
  shiftColumnsByOnePlace column_3 (-1)
    = Some (Ok {| arr_rows := 3; arr_cols := 1; arr_data := [2%Q; 3%Q; 3%Q] |}) ∧
  shiftColumnsByOnePlace single 5 = Some (Ok single) ∧
  shiftColumnsByOnePlace row_3 2
    = Some (Throw "Invalid direction, only 1 and -1 are valid values.").
Proof. repeat split; vm_compute; reflexivity. Qed.


(** * Further properties *)

(** ** clamp: identity inside the bounds, saturation outside *)

Section ClampSaturation.
Context {F : Type} {opsF : FloatOps F} {ordF : FloatOrder F}.

Lemma flt_false_of_unordered (a b : F) : fle a a = false → flt a b = false.
Proof.
  intros Hnan. destruct (flt a b) eqn:Hlt; [|reflexivity].
  rewrite (fle_refl_l _ _ (flt_fle _ _ Hlt)) in Hnan. discriminate.
Qed.

(** For bounds [l <= u]: an input in [l, u) is returned as it is, an
    input above [u] gives [u], an input below [l < u] gives [l], and an
    unordered input (a NaN) gives [u]. *)
Theorem clamp_identity_and_saturation (l u x : F) :
  fle l u = true →
  (fle l x = true → flt x u = true → clamp l u x = x) ∧
  (flt u x = true → clamp l u x = u) ∧
  (flt x l = true → flt l u = true → clamp l u x = l) ∧
  (fle x x = false → clamp l u x = u).
Proof.
  intros Hlu. unfold clamp, std_min, std_max. repeat split.
  - intros Hlx Hxu. rewrite (fle_not_flt _ _ Hlx), Hxu. reflexivity.
  - intros Hux.
    pose proof (fle_flt_trans _ _ _ Hlu Hux) as Hlx.
    rewrite (fle_not_flt _ _ (flt_fle _ _ Hlx)).
    rewrite (fle_not_flt _ _ (flt_fle _ _ Hux)). reflexivity.
  - intros Hxl Hl. rewrite Hxl, Hl. reflexivity.
  - intros Hnan. rewrite !(flt_false_of_unordered _ _ Hnan). reflexivity.
Qed.

End ClampSaturation.

Lemma clamp_identity_and_saturation_witness :
  clamp (Some 0%Q) (Some 1%Q) (Some (1 # 2)%Q) = Some (1 # 2)%Q ∧
  clamp (Some 0%Q) (Some 1%Q) (Some 7%Q) = Some 1%Q ∧
  clamp (Some 0%Q) (Some 1%Q) (Some (-7)%Q) = Some 0%Q ∧
  clamp (Some 0%Q) (Some 1%Q) NaNFloat.NaN = Some 1%Q.
Proof.
  split; [|split; [|split]].
  - exact (proj1 (clamp_identity_and_saturation (Some 0%Q) (Some 1%Q) (Some (1 # 2)%Q)
                    eq_refl) eq_refl eq_refl).
  - exact (proj1 (proj2 (clamp_identity_and_saturation (Some 0%Q) (Some 1%Q) (Some 7%Q)
                           eq_refl)) eq_refl).
  - exact (proj1 (proj2 (proj2 (clamp_identity_and_saturation (Some 0%Q) (Some 1%Q)
                                  (Some (-7)%Q) eq_refl))) eq_refl eq_refl).
  - exact (proj2 (proj2 (proj2 (clamp_identity_and_saturation (Some 0%Q) (Some 1%Q)
                                  NaNFloat.NaN eq_refl))) eq_refl).
Defined.

(** ** findClosestPathPt *)

Section ClosestPathPt.
Context {F : Type} {opsF : FloatOps F}.

(** From any index inside the vector the scan ends with an index between
    the one before its start and the last one; it stops at the first
    element beyond [dist], choosing between it and its predecessor. *)
Lemma findClosestPathPt_loop_spec (vec : list F) (dist : F) (fuel i : nat) (distim1 : F) :
  1 ≤ i ≤ length vec → length vec - i < fuel →
  ∃ r, findClosestPathPt_loop fuel vec dist (length vec) i distim1 = Some r ∧
       i - 1 ≤ r < length vec ∧
       ((r = length vec - 1 ∧ ∀ k, i ≤ k < length vec → flt dist (vec !!! k) = false) ∨
        (∃ j, i ≤ j < length vec ∧ flt dist (vec !!! j) = true ∧
              (∀ k, i ≤ k < j → flt dist (vec !!! k) = false) ∧
              r = if flt (fsub dist (if decide (j = i) then distim1 else vec !!! (j - 1)))
                         (fsub (vec !!! j) dist)
                  then j - 1 else j)).
Proof.
  revert i distim1. induction fuel as [|fuel IH]; intros i distim1 Hi Hfuel; [lia|].
  cbn [findClosestPathPt_loop].
  destruct (Nat.eqb_spec i (length vec)) as [->|Hne].
  { eexists. split; [reflexivity|]. split; [lia|]. left. split; [reflexivity|].
    intros k Hk. lia. }
  destruct (lookup_lt_is_Some_2 vec i) as [disti Hdisti]; [lia|].
  rewrite Hdisti. pose proof (list_lookup_total_correct _ _ _ Hdisti) as Htot.
  destruct (flt dist disti) eqn:Hexceeds.
  - replace (0 <? i) with true by (symmetry; apply Nat.ltb_lt; lia). cbn [andb].
    exists (if flt (fsub dist distim1) (fsub disti dist) then i - 1 else i).
    split; [destruct (flt (fsub dist distim1) (fsub disti dist)); reflexivity|].
    split; [destruct (flt (fsub dist distim1) (fsub disti dist)); lia|].
    right. exists i. split; [lia|]. split; [rewrite Htot; exact Hexceeds|].
    split; [intros k Hk; lia|].
    rewrite decide_True by reflexivity. rewrite Htot. reflexivity.
  - destruct (IH (S i) disti) as (r & Hloop & Hr & Hcases); [lia|lia|].
    exists r. split; [exact Hloop|]. split; [lia|].
    destruct Hcases as [[-> Hnone]|(j & Hj & Hexj & Hbefore & ->)].
    + left. split; [reflexivity|]. intros k Hk.
      destruct (decide (k = i)) as [->|Hki]; [rewrite Htot; exact Hexceeds|].
      apply Hnone. lia.
    + right. exists j. split; [lia|]. split; [exact Hexj|]. split.
      * intros k Hk. destruct (decide (k = i)) as [->|Hki];
          [rewrite Htot; exact Hexceeds|]. apply Hbefore. lia.
      * rewrite (decide_False (P := j = i)) by lia.
        destruct (decide (j = S i)) as [->|Hjs]; [|reflexivity].
        replace (S i - 1) with i by lia. rewrite Htot. reflexivity.
Qed.

(** Started inside the vector, [findClosestPathPt] returns an index of
    the vector that is not before [init]; started at or past its end, it
    reads outside the vector. *)
Theorem findClosestPathPt_within_vector (vec : list F) (dist : F) (init : nat) :
  (init < length vec →
   ∃ r, findClosestPathPt vec dist init = Some r ∧ init ≤ r < length vec) ∧
  (length vec ≤ init → findClosestPathPt vec dist init = None).
Proof.
  unfold findClosestPathPt. split.
  - intros Hinit.
    assert (Hdistim1 : ∃ d, (if negb (init =? 0) then vec !! init else Some (flit 0%Q))
                            = Some d).
    { destruct (init =? 0); cbn; [eauto|]. apply lookup_lt_is_Some_2. exact Hinit. }
    destruct Hdistim1 as [d ->].
    destruct (findClosestPathPt_loop_spec vec dist (S (length vec)) (init + 1) d)
      as (r & Hloop & Hr & _); [lia|lia|].
    exists r. split; [exact Hloop|lia].
  - intros Hinit. destruct (Nat.eqb_spec init 0) as [->|Hne]; cbn [negb].
    + assert (Hempty : length vec = 0) by lia.
      destruct vec; [reflexivity|cbn in Hempty; lia].
    + rewrite (lookup_ge_None_2 vec init Hinit). reflexivity.
Qed.

(** Which index it returns: the last one when no accumulated distance
    after [init] exceeds [dist]; otherwise, at the first index [j] whose
    distance exceeds [dist], the index before [j] when [dist] is strictly
    nearer to the previous distance than to the one at [j], and [j]
    otherwise.  The previous distance of index 1 is taken to be 0,
    whatever the first element holds. *)
Theorem findClosestPathPt_first_beyond (vec : list F) (dist : F) (init : nat) :
  init < length vec →
  ((∀ k, init < k < length vec → flt dist (vec !!! k) = false) →
   findClosestPathPt vec dist init = Some (length vec - 1)) ∧
  (∀ j, init < j < length vec → flt dist (vec !!! j) = true →
        (∀ k, init < k < j → flt dist (vec !!! k) = false) →
        findClosestPathPt vec dist init
        = Some (if flt (fsub dist (previous_distance vec j)) (fsub (vec !!! j) dist)
                then j - 1 else j)).
Proof.
  intros Hinit. unfold findClosestPathPt.
  assert (Hdistim1 : (if negb (init =? 0) then vec !! init else Some (flit 0%Q))
                     = Some (previous_distance vec (init + 1))).
  { unfold previous_distance. destruct (Nat.eqb_spec init 0) as [->|Hne]; cbn [negb].
    - reflexivity.
    - destruct (Nat.eqb_spec (init + 1) 1) as [?|_]; [lia|].
      replace (init + 1 - 1) with init by lia.
      destruct (lookup_lt_is_Some_2 vec init Hinit) as [d ->]. reflexivity. }
  rewrite Hdistim1.
  destruct (findClosestPathPt_loop_spec vec dist (S (length vec)) (init + 1)
              (previous_distance vec (init + 1)))
    as (r & -> & Hr & Hcases); [lia|lia|].
  split.
  - intros Hnone. destruct Hcases as [[-> _]|(j & Hj & Hexj & _)]; [reflexivity|].
    rewrite Hnone in Hexj by lia. discriminate.
  - intros j Hj Hexj Hbefore. f_equal.
    destruct Hcases as [[_ Hnone]|(j' & Hj' & Hexj' & Hbefore' & ->)].
    { rewrite Hnone in Hexj by lia. discriminate. }
    assert (j' = j) as ->.
    { destruct (Nat.lt_trichotomy j' j) as [Hlt|[Heq|Hgt]]; [|exact Heq|].
      - rewrite Hbefore in Hexj' by lia. discriminate.
      - rewrite Hbefore' in Hexj by lia. discriminate. }
    destruct (decide (j = init + 1)) as [->|Hne]; [reflexivity|].
    unfold previous_distance. destruct (Nat.eqb_spec j 1) as [?|_]; [lia|].
    rewrite (list_lookup_total_alt vec (j - 1)). reflexivity.
Qed.

End ClosestPathPt.

Lemma findClosestPathPt_within_vector_witness :
  (∃ r, findClosestPathPt accumulated (5 # 2)%Q 0 = Some r ∧ 0 ≤ r < 4) ∧
  findClosestPathPt accumulated (5 # 2)%Q 4 = None.
Proof.
  split.
  - exact (proj1 (findClosestPathPt_within_vector accumulated (5 # 2)%Q 0)
             ltac:(cbv; lia)).
  - exact (proj2 (findClosestPathPt_within_vector accumulated (5 # 2)%Q 4)
             ltac:(cbv; lia)).
Defined.

Lemma findClosestPathPt_first_beyond_witness :
  findClosestPathPt accumulated (5 # 2)%Q 0 = Some 2 ∧
  findClosestPathPt accumulated 9%Q 1 = Some 3.
Proof.
  split.
  - apply (proj2 (findClosestPathPt_first_beyond accumulated (5 # 2)%Q 0
                    ltac:(cbv; lia)) 3); [cbv; lia|reflexivity|].
    intros k Hk. assert (k = 1 ∨ k = 2) as [-> | ->] by lia; reflexivity.
  - apply (proj1 (findClosestPathPt_first_beyond accumulated 9%Q 1 ltac:(cbv; lia))).
    intros k Hk. cbn in Hk. assert (k = 2 ∨ k = 3) as [-> | ->] by lia; reflexivity.
Defined.

Example findClosestPathPt_values :
  findClosestPathPt accumulated (5 # 2)%Q 0 = Some 2 ∧
  findClosestPathPt accumulated (7 # 2)%Q 0 = Some 3 ∧
  findClosestPathPt accumulated (1 # 4)%Q 0 = Some 0 ∧
  findClosestPathPt [5%Q; 6%Q] (11 # 2)%Q 0 = Some 1 ∧
  findClosestPathPt ([] : list Q) 1%Q 0 = None.
Proof. repeat split; vm_compute; reflexivity. Qed.

(** ** The furthest reached point is a path index *)

Section FurthestReachedPointBounds.
Context {F D : Type} {opsF : FloatOps F} {opsD : FloatOps D} {prec : Precisions F D}.
Context {ordF : FloatOrder F}.

(** The returned index is 0 for an empty path and for an empty batch, and
    otherwise an index of the path; the same holds for what
    [setPathFurthestPointIfNotSet] stores in an unset cache. *)
Theorem findPathFurthestReachedPoint_is_path_index (data : CriticData F D) :
  (path_x (path data) = [] → findPathFurthestReachedPoint data = 0) ∧
  (arr_rows (traj_x (trajectories data)) = 0 → findPathFurthestReachedPoint data = 0) ∧
  (path_x (path data) ≠ [] →
   findPathFurthestReachedPoint data < length (path_x (path data)) ∧
   (furthest_reached_path_point data = None →
    ∃ idx, furthest_reached_path_point (setPathFurthestPointIfNotSet data) = Some idx ∧
           idx < length (path_x (path data)))).
Proof.
  change (findPathFurthestReachedPoint data)
    with (cursor_at data (arr_rows (traj_x (trajectories data)))).
  pose proof (cursor_at_bound data (arr_rows (traj_x (trajectories data)))) as Hbound.
  split; [|split].
  - intros Hempty. rewrite Hempty in Hbound. cbn in Hbound. lia.
  - intros ->. reflexivity.
  - intros Hne.
    assert (Hlen : 0 < length (path_x (path data))).
    { destruct (path_x (path data)); [congruence|cbn; lia]. }
    split; [lia|]. intros Hunset. unfold setPathFurthestPointIfNotSet.
    rewrite Hunset. cbn. eexists. split; [reflexivity|].
    change (findPathFurthestReachedPoint data)
      with (cursor_at data (arr_rows (traj_x (trajectories data)))). lia.
Qed.

End FurthestReachedPointBounds.

Lemma findPathFurthestReachedPoint_is_path_index_witness :
  findPathFurthestReachedPoint batch_data < 3 ∧
  ∃ idx, furthest_reached_path_point (setPathFurthestPointIfNotSet batch_data) = Some idx ∧
         idx < 3.
Proof.
  destruct (proj2 (proj2 (findPathFurthestReachedPoint_is_path_index (F:=Q) (D:=Q)
                            batch_data)) ltac:(discriminate)) as [Hidx Hcache].
  split; [exact Hidx|]. exact (Hcache eq_refl).
Defined.

(** ** The two caches are filled once *)

Section Caches.
Context {F D : Type} {opsF : FloatOps F} {opsD : FloatOps D} {prec : Precisions F D}.
Context {cost_values : CostValues}.

(** Once [setPathCostsIfNotSet] has returned, a second call returns the
    same context whatever cost grid it is given: the mask is not
    recomputed.  Neither setter touches the other cache, and
    [setPathFurthestPointIfNotSet] is idempotent. *)
Theorem caches_are_filled_once (data data' : CriticData F D)
    (costmap_ros other_costmap_ros : Costmap2DROS D) :
  setPathCostsIfNotSet data costmap_ros = Ok data' →
  setPathCostsIfNotSet data' other_costmap_ros = Ok data' ∧
  is_Some (path_pts_valid data') ∧
  furthest_reached_path_point data' = furthest_reached_path_point data ∧
  path_pts_valid (setPathFurthestPointIfNotSet data') = path_pts_valid data' ∧
  setPathFurthestPointIfNotSet (setPathFurthestPointIfNotSet data')
    = setPathFurthestPointIfNotSet data'.
Proof.
  intros Hset.
  assert (Hsome : is_Some (path_pts_valid data') ∧
                  furthest_reached_path_point data' = furthest_reached_path_point data).
  { unfold setPathCostsIfNotSet in Hset.
    destruct (path_pts_valid data) as [valid|] eqn:Hvalid.
    - injection Hset as <-. rewrite Hvalid. eauto.
    - unfold findPathCosts in Hset. injection Hset as <-. cbn. eauto. }
  destruct Hsome as [[valid Hvalid] Hfurthest].
  split; [unfold setPathCostsIfNotSet; rewrite Hvalid; reflexivity|].
  split; [eauto|]. split; [exact Hfurthest|].
  unfold setPathFurthestPointIfNotSet.
  destruct (furthest_reached_path_point data') eqn:Hf.
  - rewrite Hf. split; reflexivity.
  - cbn. split; reflexivity.
Qed.

End Caches.

Lemma caches_are_filled_once_witness :
  ∃ data', setPathCostsIfNotSet straight_data strip_costmap_ros = Ok data' ∧
    setPathCostsIfNotSet data' nowhere_costmap_ros = Ok data' ∧
    path_pts_valid data' = Some [true; false].
Proof.
  assert (Hcall : setPathCostsIfNotSet straight_data strip_costmap_ros
                  = Ok {| trajectories := no_trajectories; path := straight_path;
                          goal := pose_at 5%Q 5%Q;
                          path_pts_valid := Some [true; false];
                          furthest_reached_path_point := None |}).
  { vm_compute. reflexivity. }
  eexists. split; [exact Hcall|]. split; [|reflexivity].
  exact (proj1 (caches_are_filled_once straight_data _ strip_costmap_ros
                  nowhere_costmap_ros Hcall)).
Defined.

(** ** Truncating twice *)

Section TruncationIdempotent.
Context {F D : Type} {opsF : FloatOps F} {opsD : FloatOps D} {prec : Precisions F D}.

Lemma position_at_take (path : NavPath D) (r idx : nat) :
  idx < r →
  position_at {| header := header path; poses := take r (poses path) |} idx
  = position_at path idx.
Proof.
  intros Hidx. unfold position_at. cbn [poses].
  rewrite lookup_take_lt by assumption. reflexivity.
Qed.

Lemma cusp_at_take (path : NavPath D) (r idx : nat) :
  1 ≤ idx → idx + 1 < r →
  cusp_at {| header := header path; poses := take r (poses path) |} idx
  ↔ cusp_at path idx.
Proof.
  intros Hidx Hr. unfold cusp_at, dot_product_at.
  rewrite !position_at_take by lia. reflexivity.
Qed.

(** The truncated path has no inversion left. *)
Lemma findFirstPathInversion_truncated (path : NavPath D) :
  findFirstPathInversion
    {| header := header path;
       poses := take (findFirstPathInversion path) (poses path) |}
  = findFirstPathInversion path.
Proof.
  pose proof (findFirstPathInversion_le path) as Hle.
  set (r := findFirstPathInversion path) in *.
  set (cropped := {| header := header path; poses := take r (poses path) |}).
  assert (Hlen : length (poses cropped) = r) by (cbn; rewrite length_take; lia).
  destruct (findFirstPathInversion_spec cropped) as [[Hnone _]|(Hr' & Hcusp & _)].
  - rewrite Hnone. exact Hlen.
  - exfalso. rewrite Hlen in Hr'.
    apply cusp_at_take in Hcusp; [|lia|lia].
    destruct (findFirstPathInversion_spec path) as [[_ Hfree]|(_ & _ & Hfirst)].
    + apply (Hfree (findFirstPathInversion cropped - 1)); [lia| |exact Hcusp].
      fold r. lia.
    + apply (Hfirst (findFirstPathInversion cropped - 1)); [|exact Hcusp].
      fold r. lia.
Qed.

(** Truncation is idempotent: applied to its own result it changes
    nothing and returns 0.  Its return value is 0 exactly when it has
    left the path as it was; any other return value is the number of
    poses kept, at least 2 and fewer than before. *)
Theorem removePosesAfterFirstInversion_idempotent (path : NavPath D) :
  removePosesAfterFirstInversion (removePosesAfterFirstInversion path).1
    = ((removePosesAfterFirstInversion path).1, 0) ∧
  ((removePosesAfterFirstInversion path).2 = 0 ↔
   (removePosesAfterFirstInversion path).1 = path) ∧
  ((removePosesAfterFirstInversion path).2 ≠ 0 →
   length (poses (removePosesAfterFirstInversion path).1)
     = (removePosesAfterFirstInversion path).2 ∧
   2 ≤ (removePosesAfterFirstInversion path).2 < length (poses path)).
Proof.
  pose proof (findFirstPathInversion_le path) as Hle.
  pose proof (findFirstPathInversion_truncated path) as Htrunc.
  pose proof (findFirstPathInversion_spec path) as Hspec. cbv zeta in Hspec.
  pose proof (removePosesAfterFirstInversion_spec path) as Hrem. cbv zeta in Hrem.
  destruct (removePosesAfterFirstInversion path) as [[header1 poses1] r1].
  cbn [fst snd header poses] in *. destruct Hrem as (-> & -> & ->).
  assert (Hlen : length (take (findFirstPathInversion path) (poses path))
                 = findFirstPathInversion path) by (rewrite length_take; lia).
  split; [|split].
  - unfold removePosesAfterFirstInversion. rewrite Htrunc. cbn [poses].
    rewrite Hlen, Nat.eqb_refl. reflexivity.
  - destruct (decide (findFirstPathInversion path = length (poses path)))
      as [Heq|Hne].
    + split; [intros _|reflexivity]. rewrite Heq, firstn_all.
      destruct path; reflexivity.
    + destruct Hspec as [[Heq _]|[Hr _]]; [congruence|].
      split; [lia|]. intros Hsame.
      apply (f_equal (λ p, length (poses p))) in Hsame. cbn [poses] in Hsame. lia.
  - destruct (decide (findFirstPathInversion path = length (poses path)))
      as [Heq|Hne]; [congruence|]. intros _.
    destruct Hspec as [[Heq _]|[Hr _]]; [congruence|]. lia.
Qed.

End TruncationIdempotent.

Example removePosesAfterFirstInversion_twice :
  removePosesAfterFirstInversion (removePosesAfterFirstInversion cusp_path).1
  = (path_through [(0%Q, 0%Q); (1%Q, 0%Q); (2%Q, 0%Q)], 0).
Proof. vm_compute. reflexivity. Qed.

(** ** What the control history can change *)

Section SavitskyGolayHistory.
Context {F : Type} {opsF : FloatOps F}.

Lemma window_at_history_independent (num_seq : nat) (init : list F)
    (h0 h1 h2 h3 h0' h1' h2' h3' : F) (idx : nat) :
  4 ≤ idx →
  window_at num_seq init h0 h1 h2 h3 idx = window_at num_seq init h0' h1' h2' h3' idx.
Proof.
  intros Hidx. unfold window_at. cbn [fmap list_fmap].
  rewrite !window_sample_nonneg by lia. reflexivity.
Qed.

Lemma axis_filtered_agree (num_seq : nat) (init out out' : list F)
    (h0 h1 h2 h3 h0' h1' h2' h3' : F) (idx : nat) :
  axis_filtered num_seq init h0 h1 h2 h3 out →
  axis_filtered num_seq init h0' h1' h2' h3' out' →
  length init = S num_seq → 4 ≤ idx → out !! idx = out' !! idx.
Proof.
  intros (Hlen & Hin & Hlast) (Hlen' & Hin' & Hlast') Hinit Hidx.
  destruct (Nat.lt_trichotomy idx num_seq) as [Hlt|[->|Hgt]].
  - rewrite Hin, Hin' by assumption.
    rewrite (window_at_history_independent num_seq init h0 h1 h2 h3 h0' h1' h2' h3')
      by assumption. reflexivity.
  - congruence.
  - rewrite !lookup_ge_None_2 by lia. reflexivity.
Qed.

(** On a non-empty control sequence with axes of one length, the control
    history and the shift setting can change only the first four
    elements of each filtered axis: from index 4 on the result is the
    same for any two histories and settings. *)
Theorem savitskyGolayFilter_history_reaches_four_elements
    (control_sequence : ControlSequence F) (history history' : ControlHistory F)
    (settings settings' : OptimizerSettings) (idx : nat) :
  1 ≤ length (cs_vx control_sequence) →
  (Z.of_nat (length (cs_vx control_sequence)) ≤ 2 ^ 32)%Z →
  length (cs_vy control_sequence) = length (cs_vx control_sequence) →
  length (cs_wz control_sequence) = length (cs_vx control_sequence) →
  4 ≤ idx →
  cs_vx (savitskyGolayFilter control_sequence history settings).1 !! idx
    = cs_vx (savitskyGolayFilter control_sequence history' settings').1 !! idx ∧
  cs_vy (savitskyGolayFilter control_sequence history settings).1 !! idx
    = cs_vy (savitskyGolayFilter control_sequence history' settings').1 !! idx ∧
  cs_wz (savitskyGolayFilter control_sequence history settings).1 !! idx
    = cs_wz (savitskyGolayFilter control_sequence history' settings').1 !! idx.
Proof.
  intros Hne Hbound Hvy Hwz Hidx. unfold savitskyGolayFilter.
  pose proof (num_sequences_small control_sequence Hne Hbound) as Hnum.
  destruct (num_sequences control_sequence <? 20) eqn:Hshort; [auto|].
  apply Nat.ltb_ge in Hshort.
  unfold filter_trajectories. cbn [fst cs_vx cs_vy cs_wz].
  repeat split;
    (eapply axis_filtered_agree;
     [apply applyFilterOverAxis_spec; lia
     |apply applyFilterOverAxis_spec; lia
     |lia|assumption]).
Qed.

End SavitskyGolayHistory.

Lemma savitskyGolayFilter_history_reaches_four_elements_witness :
  cs_vx (savitskyGolayFilter (impulse 21) zero_history shifting).1 !! 4
    = cs_vx (savitskyGolayFilter (impulse 21) busy_history not_shifting).1 !! 4 ∧
  cs_vy (savitskyGolayFilter (impulse 21) zero_history shifting).1 !! 4
    = cs_vy (savitskyGolayFilter (impulse 21) busy_history not_shifting).1 !! 4 ∧
  cs_wz (savitskyGolayFilter (impulse 21) zero_history shifting).1 !! 4
    = cs_wz (savitskyGolayFilter (impulse 21) busy_history not_shifting).1 !! 4.
Proof.
  exact (savitskyGolayFilter_history_reaches_four_elements (impulse 21)
           zero_history busy_history shifting not_shifting 4
           ltac:(cbv; lia) ltac:(cbv; discriminate) eq_refl eq_refl ltac:(lia)).
Defined.

Example savitskyGolayFilter_history_values :
  cs_vx (savitskyGolayFilter (impulse 21) zero_history shifting).1 !! 3
    ≠ cs_vx (savitskyGolayFilter (impulse 21) busy_history shifting).1 !! 3.
Proof. vm_compute. discriminate. Qed.

(** ** Shifting back and forth, and empty arrays *)

Section ShiftComposition.
Context {F : Type} {opsF : FloatOps F}.

(** One shift of an array with at least two columns, column by column. *)
Lemma shiftColumnsByOnePlace_columns (e : ArrayXX F) (direction : Z) :
  arr_wf e → 1 ≤ arr_rows e → 2 ≤ arr_cols e →
  direction = 1%Z ∨ direction = (-1)%Z →
  ∃ e', shiftColumnsByOnePlace e direction = Some (Ok e') ∧
        arr_rows e' = arr_rows e ∧ arr_cols e' = arr_cols e ∧ arr_wf e' ∧
        ∀ i j, i < arr_rows e → j < arr_cols e →
          arr_coeff e' i j = arr_coeff e i (shift_source (arr_cols e) direction j).
Proof.
  intros Hwf Hrows Hcols Hdir.
  assert (Hsize : 1 < arr_size e) by (unfold arr_size; nia).
  destruct (decide (arr_cols e = 1 ∨ arr_rows e = 1)) as [Hvec|H2d].
  - destruct (shiftColumnsByOnePlace_data e direction 1 (arr_size e) Hwf Hsize Hdir)
      as (data' & Hcall & Hlen & Hlook).
    { rewrite decide_True by assumption. split; reflexivity. }
    assert (Hone : arr_rows e = 1) by lia.
    eexists. split; [exact Hcall|]. cbn [arr_rows arr_cols].
    split; [reflexivity|]. split; [reflexivity|]. split; [exact Hlen|].
    unfold arr_coeff, arr_size in *. cbn [arr_rows arr_cols arr_data].
    intros i j Hi Hj. rewrite Hlook by nia.
    rewrite shifted_offset_entry by assumption. rewrite Hone in *. f_equal.
    destruct Hdir as [-> | ->]; unfold shift_source; cbn [Z.eqb Pos.eqb];
      repeat case_decide; lia.
  - destruct (shiftColumnsByOnePlace_data e direction (arr_rows e) (arr_cols e)
                Hwf Hsize Hdir) as (data' & Hcall & Hlen & Hlook).
    { rewrite decide_False by assumption. split; reflexivity. }
    eexists. split; [exact Hcall|]. cbn [arr_rows arr_cols].
    split; [reflexivity|]. split; [reflexivity|]. split; [exact Hlen|].
    unfold arr_coeff, arr_size in *. cbn [arr_rows arr_cols arr_data].
    intros i j Hi Hj. rewrite Hlook by nia.
    rewrite shifted_offset_column by assumption. reflexivity.
Qed.

(** Shifting an array of at least two columns in direction 1 and then in
    direction -1 restores every column but the last, which ends as a
    copy of the column before it; in the opposite order every column but
    the first is restored, and the first ends as a copy of the second. *)
Theorem shiftColumnsByOnePlace_there_and_back (e : ArrayXX F) :
  arr_wf e → 1 ≤ arr_rows e → 2 ≤ arr_cols e →
  (∃ e1 e2,
     shiftColumnsByOnePlace e 1 = Some (Ok e1) ∧
     shiftColumnsByOnePlace e1 (-1) = Some (Ok e2) ∧
     ∀ i j, i < arr_rows e → j < arr_cols e →
       arr_coeff e2 i j
       = arr_coeff e i (if decide (j + 1 < arr_cols e) then j else j - 1)) ∧
  (∃ e1 e2,
     shiftColumnsByOnePlace e (-1) = Some (Ok e1) ∧
     shiftColumnsByOnePlace e1 1 = Some (Ok e2) ∧
     ∀ i j, i < arr_rows e → j < arr_cols e →
       arr_coeff e2 i j = arr_coeff e i (if decide (j = 0) then 1 else j)).
Proof.
  intros Hwf Hrows Hcols. split.
  - destruct (shiftColumnsByOnePlace_columns e 1 Hwf Hrows Hcols (or_introl eq_refl))
      as (e1 & Hcall1 & Hr1 & Hc1 & Hwf1 & Hco1).
    destruct (shiftColumnsByOnePlace_columns e1 (-1) Hwf1 ltac:(lia) ltac:(lia)
                (or_intror eq_refl)) as (e2 & Hcall2 & _ & _ & _ & Hco2).
    exists e1, e2. split; [exact Hcall1|]. split; [exact Hcall2|].
    intros i j Hi Hj. rewrite Hco2 by lia. rewrite Hc1.
    unfold shift_source at 1. cbn [Z.eqb].
    destruct (decide (j + 1 < arr_cols e)).
    + rewrite Hco1 by lia. unfold shift_source. cbn [Z.eqb Pos.eqb]. f_equal. lia.
    + rewrite Hco1 by lia. unfold shift_source. cbn [Z.eqb Pos.eqb]. reflexivity.
  - destruct (shiftColumnsByOnePlace_columns e (-1) Hwf Hrows Hcols (or_intror eq_refl))
      as (e1 & Hcall1 & Hr1 & Hc1 & Hwf1 & Hco1).
    destruct (shiftColumnsByOnePlace_columns e1 1 Hwf1 ltac:(lia) ltac:(lia)
                (or_introl eq_refl)) as (e2 & Hcall2 & _ & _ & _ & Hco2).
    exists e1, e2. split; [exact Hcall1|]. split; [exact Hcall2|].
    intros i j Hi Hj. rewrite Hco2 by lia.
    unfold shift_source at 1. cbn [Z.eqb Pos.eqb].
    rewrite Hco1 by lia. unfold shift_source. cbn [Z.eqb]. f_equal.
    repeat case_decide; lia.
Qed.

(** An empty array is not exempt from the direction check, unlike an
    array of one element: an invalid direction throws.  With a valid
    direction an array without rows is returned as it is. *)
Theorem shiftColumnsByOnePlace_empty (e : ArrayXX F) (direction : Z) :
  arr_wf e → arr_size e = 0 →
  (direction ≠ 1%Z ∧ direction ≠ (-1)%Z →
   shiftColumnsByOnePlace e direction
   = Some (Throw "Invalid direction, only 1 and -1 are valid values.")) ∧
  (direction = 1%Z ∨ direction = (-1)%Z → arr_rows e = 0 →
   shiftColumnsByOnePlace e direction = Some (Ok e)).
Proof.
  intros Hwf Hsize. unfold shiftColumnsByOnePlace. rewrite Hsize. cbn [Z.of_nat Z.eqb].
  split.
  - intros [Hne1 Hne2].
    destruct (Z.eqb_spec (Z.abs direction) 1) as [?|_]; [lia|]. reflexivity.
  - intros Hdir Hrows. rewrite Hrows.
    replace (Z.abs direction =? 1)%Z with true
      by (destruct Hdir as [-> | ->]; reflexivity).
    cbn [negb Z.of_nat Z.ltb Z.compare andb]. rewrite andb_false_r.
    destruct e as [rows cols data]. cbn [arr_rows arr_cols arr_data] in *.
    unfold arr_wf in Hwf. cbn in Hwf. subst rows.
    destruct Hdir as [-> | ->]; cbn; reflexivity.
Qed.

End ShiftComposition.

Lemma shiftColumnsByOnePlace_there_and_back_witness :
  (∃ e1 e2,
     shiftColumnsByOnePlace grid_2x3 1 = Some (Ok e1) ∧
     shiftColumnsByOnePlace e1 (-1) = Some (Ok e2) ∧
     arr_coeff e2 1 0 = arr_coeff grid_2x3 1 0 ∧
     arr_coeff e2 1 2 = arr_coeff grid_2x3 1 1) ∧
  (∃ e1 e2,
     shiftColumnsByOnePlace grid_2x3 (-1) = Some (Ok e1) ∧
     shiftColumnsByOnePlace e1 1 = Some (Ok e2) ∧
     arr_coeff e2 0 0 = arr_coeff grid_2x3 0 1 ∧
     arr_coeff e2 0 2 = arr_coeff grid_2x3 0 2).
Proof.
  destruct (shiftColumnsByOnePlace_there_and_back grid_2x3 eq_refl
              ltac:(cbv; lia) ltac:(cbv; lia))
    as [(e1 & e2 & H1 & H2 & Hco) (e1' & e2' & H1' & H2' & Hco')].
  split.
  - exists e1, e2. split; [exact H1|]. split; [exact H2|]. split.
    + apply (Hco 1 0); cbv; lia.
    + apply (Hco 1 2); cbv; lia.
  - exists e1', e2'. split; [exact H1'|]. split; [exact H2'|]. split.
    + apply (Hco' 0 0); cbv; lia.
    + apply (Hco' 0 2); cbv; lia.
Defined.

Lemma shiftColumnsByOnePlace_empty_witness :
  shiftColumnsByOnePlace no_rows 3
    = Some (Throw "Invalid direction, only 1 and -1 are valid values.") ∧
  shiftColumnsByOnePlace no_rows (-1) = Some (Ok no_rows).
Proof.
  split.
  - exact (proj1 (shiftColumnsByOnePlace_empty no_rows 3 eq_refl eq_refl)
             ltac:(split; discriminate)).
  - exact (proj2 (shiftColumnsByOnePlace_empty no_rows (-1) eq_refl eq_refl)
             (or_intror eq_refl) eq_refl).
Defined.

(** ** From the planner's path to the critic goal *)

Section PathTensor.
Context {F D : Type} {opsF : FloatOps F} {opsD : FloatOps D} {prec : Precisions F D}.
Context (getYaw : Quaternion D → D) (reset : nat → Path F).
Context (setRPY : D → D → D → Quaternion D).

Lemma toTensor_loop_spec (path : NavPath D) (remaining i : nat) (result : Path F) :
  i + remaining = length (poses path) →
  length (path_x result) = length (poses path) →
  length (path_y result) = length (poses path) →
  length (path_yaws result) = length (poses path) →
  ∀ k,
    path_x (toTensor_loop getYaw path i remaining result) !! k
      = (if decide (i ≤ k)
         then (λ s, narrow (point_x (position (pose s)))) <$> poses path !! k
         else path_x result !! k) ∧
    path_y (toTensor_loop getYaw path i remaining result) !! k
      = (if decide (i ≤ k)
         then (λ s, narrow (point_y (position (pose s)))) <$> poses path !! k
         else path_y result !! k) ∧
    path_yaws (toTensor_loop getYaw path i remaining result) !! k
      = (if decide (i ≤ k)
         then (λ s, narrow (getYaw (orientation (pose s)))) <$> poses path !! k
         else path_yaws result !! k).
Proof.
  revert i result. induction remaining as [|n IH]; intros i result Hi Hx Hy Hyaw k.
  { cbn. destruct (decide (i ≤ k)) as [Hle|]; [|auto].
    rewrite (lookup_ge_None_2 (poses path)) by lia.
    rewrite !lookup_ge_None_2 by lia. auto. }
  cbn [toTensor_loop].
  destruct (lookup_lt_is_Some_2 (poses path) i) as [stamped Hstamped]; [lia|].
  rewrite Hstamped.
  destruct (IH (S i)
              {| path_x := <[i := narrow (point_x (position (pose stamped)))]> (path_x result);
                 path_y := <[i := narrow (point_y (position (pose stamped)))]> (path_y result);
                 path_yaws := <[i := narrow (getYaw (orientation (pose stamped)))]>
                                (path_yaws result) |}
              ltac:(lia) ltac:(cbn; rewrite length_insert; lia)
              ltac:(cbn; rewrite length_insert; lia)
              ltac:(cbn; rewrite length_insert; lia) k) as (Hkx & Hky & Hkyaw).
  rewrite Hkx, Hky, Hkyaw. cbn [path_x path_y path_yaws].
  destruct (decide (S i ≤ k)) as [Hlt|Hge].
  - destruct (decide (i ≤ k)); [auto|lia].
  - destruct (decide (k = i)) as [->|Hne].
    + destruct (decide (i ≤ i)); [|lia]. rewrite !list_lookup_insert_eq by lia.
      rewrite Hstamped. auto.
    + destruct (decide (i ≤ k)); [lia|]. rewrite !list_lookup_insert_ne by lia. auto.
Qed.

Lemma toTensor_fmap (path : NavPath D) :
  reset_sizes reset →
  path_x (toTensor getYaw reset path)
    = (λ s, narrow (point_x (position (pose s)))) <$> poses path ∧
  path_y (toTensor getYaw reset path)
    = (λ s, narrow (point_y (position (pose s)))) <$> poses path ∧
  path_yaws (toTensor getYaw reset path)
    = (λ s, narrow (getYaw (orientation (pose s)))) <$> poses path.
Proof.
  intros Hreset. destruct (Hreset (length (poses path))) as (Hx & Hy & Hyaw).
  unfold toTensor.
  pose proof (toTensor_loop_spec path (length (poses path)) 0 _ eq_refl Hx Hy Hyaw)
    as Hspec.
  repeat split; apply list_eq; intros k; rewrite list_lookup_fmap;
    destruct (Hspec k) as (Hkx & Hky & Hkyaw);
    rewrite decide_True in Hkx, Hky, Hkyaw by lia; assumption.
Qed.

(** [toTensor] keeps one entry per pose, in order: the x, y and yaw of
    every pose, each stored as a float, whatever [reset] had put in the
    arrays; an empty path gives empty arrays. *)
Theorem toTensor_entries (path : NavPath D) :
  reset_sizes reset →
  length (path_x (toTensor getYaw reset path)) = length (poses path) ∧
  length (path_y (toTensor getYaw reset path)) = length (poses path) ∧
  length (path_yaws (toTensor getYaw reset path)) = length (poses path) ∧
  ∀ i stamped, poses path !! i = Some stamped →
    path_x (toTensor getYaw reset path) !! i
      = Some (narrow (point_x (position (pose stamped)))) ∧
    path_y (toTensor getYaw reset path) !! i
      = Some (narrow (point_y (position (pose stamped)))) ∧
    path_yaws (toTensor getYaw reset path) !! i
      = Some (narrow (getYaw (orientation (pose stamped)))).
Proof.
  intros Hreset. destruct (toTensor_fmap path Hreset) as (-> & -> & ->).
  rewrite !length_fmap. split; [reflexivity|]. split; [reflexivity|].
  split; [reflexivity|]. intros i stamped Hi.
  rewrite !list_lookup_fmap, Hi. auto.
Qed.

(** With path inversion enforced, a critic working on the tensor of the
    truncated path is given the pose that precedes the first inversion
    (the last pose when there is none), as rounded to floats. *)
Theorem critic_goal_is_the_cusp_pose (nav_path : NavPath D) (data : CriticData F D)
    (cusp : PoseStamped D) :
  reset_sizes reset →
  path data = toTensor getYaw reset (removePosesAfterFirstInversion nav_path).1 →
  poses nav_path !! (findFirstPathInversion nav_path - 1) = Some cusp →
  (Z.of_nat (length (poses nav_path)) ≤ 2 ^ 32)%Z →
  length (path_x (path data)) = findFirstPathInversion nav_path ∧
  getCriticGoal setRPY data true
  = {| position := {| point_x := widen (narrow (point_x (position (pose cusp))));
                      point_y := widen (narrow (point_y (position (pose cusp))));
                      point_z := flit 0%Q |};
       orientation :=
         setRPY (flit 0%Q) (flit 0%Q)
           (widen (narrow (getYaw (orientation (pose cusp))))) |}.
Proof.
  intros Hreset Hpath Hcusp Hbound.
  pose proof (findFirstPathInversion_le nav_path) as Hle.
  pose proof (lookup_lt_Some _ _ _ Hcusp) as Hlt.
  pose proof (toTensor_fmap (removePosesAfterFirstInversion nav_path).1 Hreset)
    as (Hx & Hy & Hyaw).
  pose proof (removePosesAfterFirstInversion_spec nav_path) as Hrem. cbv zeta in Hrem.
  destruct (removePosesAfterFirstInversion nav_path) as [cropped ret].
  cbn [fst] in *. destruct Hrem as (Hposes & _ & _).
  rewrite Hposes in Hx, Hy, Hyaw. rewrite <- Hpath in Hx, Hy, Hyaw.
  assert (Hr : 1 ≤ findFirstPathInversion nav_path).
  { destruct (findFirstPathInversion_spec nav_path) as [[-> _]|[? _]]; lia. }
  assert (Hlen : length (path_x (path data)) = findFirstPathInversion nav_path).
  { rewrite Hx, length_fmap, length_take. lia. }
  split; [exact Hlen|].
  unfold getCriticGoal, getLastPathPose, path_last_idx.
  rewrite Hlen, Z.mod_small by lia.
  replace (Z.to_nat (Z.of_nat (findFirstPathInversion nav_path) - 1))
    with (findFirstPathInversion nav_path - 1) by lia.
  assert (Htake : take (findFirstPathInversion nav_path) (poses nav_path)
                    !! (findFirstPathInversion nav_path - 1) = Some cusp).
  { rewrite lookup_take_lt by lia. exact Hcusp. }
  rewrite (list_lookup_total_correct (path_x (path data)) _
             (narrow (point_x (position (pose cusp)))))
    by (rewrite Hx, list_lookup_fmap, Htake; reflexivity).
  rewrite (list_lookup_total_correct (path_y (path data)) _
             (narrow (point_y (position (pose cusp)))))
    by (rewrite Hy, list_lookup_fmap, Htake; reflexivity).
  rewrite (list_lookup_total_correct (path_yaws (path data)) _
             (narrow (getYaw (orientation (pose cusp)))))
    by (rewrite Hyaw, list_lookup_fmap, Htake; reflexivity).
  destruct (setRPY _ _ _); reflexivity.
Qed.

End PathTensor.

Lemma QMath_reset_sizes : reset_sizes QMath.reset.
Proof. intros n. cbn. rewrite !length_replicate. auto. Qed.

Lemma toTensor_entries_witness :
  length (path_x (toTensor QMath.getYaw QMath.reset cusp_path)) = 5 ∧
  length (path_y (toTensor QMath.getYaw QMath.reset cusp_path)) = 5 ∧
  length (path_yaws (toTensor QMath.getYaw QMath.reset cusp_path)) = 5 ∧
  path_x (toTensor QMath.getYaw QMath.reset cusp_path) !! 2 = Some 2%Q.
Proof.
  destruct (toTensor_entries QMath.getYaw QMath.reset cusp_path QMath_reset_sizes)
    as (Hx & Hy & Hyaw & Hentry).
  split; [exact Hx|]. split; [exact Hy|]. split; [exact Hyaw|].
  exact (proj1 (Hentry 2 (stamped_at 2%Q 0%Q) eq_refl)).
Defined.

Lemma critic_goal_is_the_cusp_pose_witness :
  length (path_x (path cusp_data)) = 3 ∧
  getCriticGoal QFloat.setRPY cusp_data true
  = {| position := {| point_x := 2%Q; point_y := 0%Q; point_z := 0%Q |};
       orientation := QFloat.setRPY 0%Q 0%Q 0%Q |}.
Proof.
  exact (critic_goal_is_the_cusp_pose QMath.getYaw QMath.reset QFloat.setRPY
           cusp_path cusp_data (stamped_at 2%Q 0%Q) QMath_reset_sizes
           eq_refl eq_refl ltac:(cbv; discriminate)).
Defined.

(** ** DriveOnHeading: configuration with valid limits *)

Section DriveOnHeadingValid.
Context {D : Type} {opsD : FloatOps D} {ordD : FloatOrder D}.

(** With a node whose acceleration limit is positive and whose
    deceleration limit is negative, [onConfigure] returns, stores both
    limits as configured and logs nothing. *)
Theorem onConfigure_keeps_valid_limits (this : DriveOnHeading D) (node : Node D) :
  node_ this = Some node →
  flt (flit 0%Q) (configured_acceleration_limit this node) = true →
  flt (configured_deceleration_limit this node) (flit 0%Q) = true →
  ∃ this', onConfigure this = Ok this' ∧
    logger_ this' = logger_ this ∧
    acceleration_limit_ this' = configured_acceleration_limit this node ∧
    deceleration_limit_ this' = configured_deceleration_limit this node.
Proof.
  intros Hnode Hacc Hdec. unfold onConfigure. rewrite Hnode.
  fold (configured_acceleration_limit this node).
  fold (configured_deceleration_limit this node).
  assert (Hacc' : fle (configured_acceleration_limit this node) (flit 0%Q) = false).
  { destruct (fle (configured_acceleration_limit this node) (flit 0%Q)) eqn:Hle;
      [|reflexivity].
    rewrite (fle_not_flt _ _ Hle) in Hacc. discriminate. }
  assert (Hdec' : fle (flit 0%Q) (configured_deceleration_limit this node) = false).
  { destruct (fle (flit 0%Q) (configured_deceleration_limit this node)) eqn:Hle;
      [|reflexivity].
    rewrite (fle_not_flt _ _ Hle) in Hdec. discriminate. }
  rewrite Hacc', Hdec'. cbn [orb]. eexists. split; [reflexivity|]. cbn. auto.
Qed.

End DriveOnHeadingValid.

Lemma onConfigure_keeps_valid_limits_witness :
  ∃ this', onConfigure well_configured_behavior = Ok this' ∧
    logger_ this' = [] ∧
    acceleration_limit_ this' = (5 # 2)%Q ∧
    deceleration_limit_ this' = (-1 # 2)%Q.
Proof.
  exact (onConfigure_keeps_valid_limits well_configured_behavior
           well_configured_node eq_refl eq_refl eq_refl).
Defined.

(** ** DriveOnHeading: accepting a command *)

Section OnRun.
Context {D : Type} {opsD : FloatOps D} {eqD : FloatEq D} {mathD : FloatMath D}.

(** [onRun] never answers RUNNING.  It succeeds exactly when the target
    has neither a y nor a z component, the target x and the speed are
    both positive or both not, and the robot pose is available; it then
    holds the command, the deadline and the pose, and has logged nothing.
    A command rejected as invalid input changes nothing but the log, and
    is rejected before the pose is looked up; a failed pose lookup leaves
    the new command stored. *)
Theorem onRun_accepts_exactly (this : DriveOnHeadingRun D) (env : Collaborators D)
    (command : Goal D) :
  status (onRun this env command).2 ≠ RUNNING ∧
  (status (onRun this env command).2 = SUCCEEDED ↔
   feq (point_y (target command)) (flit 0%Q) = true ∧
   feq (point_z (target command)) (flit 0%Q) = true ∧
   flt (flit 0%Q) (point_x (target command)) = flt (flit 0%Q) (speed command) ∧
   (getCurrentPose env (initial_pose_ this)).1 = true) ∧
  (status (onRun this env command).2 = SUCCEEDED →
   error_code (onRun this env command).2 = NONE ∧
   (onRun this env command).1
   = set_initial_pose (store_command this command (now env))
       (getCurrentPose env (initial_pose_ this)).2) ∧
  (error_code (onRun this env command).2 = INVALID_INPUT →
   ∃ severity message,
     (onRun this env command).1 = emit this (Logged severity message)) ∧
  (error_code (onRun this env command).2 = TF_ERROR →
   command_x_ (onRun this env command).1 = point_x (target command) ∧
   command_speed_ (onRun this env command).1 = speed command ∧
   end_time_ (onRun this env command).1 = (now env + time_allowance command)%Z).
Proof.
  unfold onRun.
  destruct (feq (point_y (target command)) (flit 0%Q)) eqn:Hy;
    destruct (feq (point_z (target command)) (flit 0%Q)) eqn:Hz; cbn [negb orb];
    try (cbn [fst snd status error_code failed]; repeat split;
         try discriminate; try (intros (? & ? & _); discriminate); eauto; fail).
  destruct (Bool.eqb (flt (flit 0%Q) (point_x (target command)))
                     (flt (flit 0%Q) (speed command))) eqn:Hsign; cbn [negb].
  - apply eqb_prop in Hsign. cbn [initial_pose_ store_command].
    destruct (getCurrentPose env (initial_pose_ this)) as [available written].
    destruct available; cbn [negb fst snd status error_code failed];
      repeat split; try discriminate; try (intros (_ & _ & _ & ?); discriminate); auto.
  - cbn [fst snd status error_code failed]. repeat split; try discriminate; eauto.
    intros (_ & _ & Heq & _). rewrite Heq, eqb_reflx in Hsign. discriminate.
Qed.

End OnRun.

(** ** DriveOnHeading: the collision look-ahead *)

Section CollisionLookAhead.
Context {D : Type} {opsD : FloatOps D} {eqD : FloatEq D} {mathD : FloatMath D}.
Context (getYaw : Quaternion D → D).

Lemma isCollisionFree_loop_spec (this : DriveOnHeadingRun D) (env : Collaborators D)
    (cmd_vel : Twist D) (init_pose : Pose D) (init_theta diff_dist : D)
    (remaining : nat) (cycle_count : Z) (fetch_data : bool) (pose : Pose D)
    (queries : list (Pose D * bool)) :
  ∃ asked,
    (isCollisionFree_loop this env cmd_vel init_pose init_theta diff_dist
       remaining cycle_count fetch_data pose queries).2 = queries ++ asked ∧
    length asked ≤ remaining ∧
    (∀ k q, asked !! k = Some q → q.2 = if decide (k = 0) then fetch_data else false) ∧
    (isCollisionFree_loop this env cmd_vel init_pose init_theta diff_dist
       remaining cycle_count fetch_data pose queries).1.1
      = forallb (λ q, checkCollisionFree env q.1 q.2) asked ∧
    (∀ k q, asked !! k = Some q → S k < length asked →
       checkCollisionFree env q.1 q.2 = true) ∧
    point_z (position (isCollisionFree_loop this env cmd_vel init_pose init_theta
                         diff_dist remaining cycle_count fetch_data pose queries).1.2)
      = point_z (position pose) ∧
    orientation (isCollisionFree_loop this env cmd_vel init_pose init_theta
                   diff_dist remaining cycle_count fetch_data pose queries).1.2
      = orientation pose.
Proof.
  revert cycle_count fetch_data pose queries.
  induction remaining as [|n IH]; intros cycle_count fetch_data pose queries.
  { exists []. cbn. rewrite app_nil_r. repeat split; try lia; intros k q Hk; discriminate. }
  cbn [isCollisionFree_loop].
  set (sim := fmul (vec_x (linear cmd_vel))
                (fdiv (fofint cycle_count) (cycle_frequency_ this))).
  set (moved := {| position := _; orientation := orientation pose |}).
  destruct (fle (fsub diff_dist (c_abs sim)) (flit 0%Q)).
  { exists []. cbn. rewrite app_nil_r. repeat split; try lia; intros k q Hk; discriminate. }
  destruct (checkCollisionFree env moved fetch_data) eqn:Hfree; cbn [negb].
  - destruct (IH (cycle_count + 1)%Z false moved (queries ++ [(moved, fetch_data)]))
      as (asked & Hq & Hlen & Hflags & Hverdict & Hbefore & Hz & Hor).
    exists ((moved, fetch_data) :: asked).
    split; [rewrite Hq, <- app_assoc; reflexivity|].
    split; [cbn; lia|]. split; [|split; [|split; [|split]]].
    + intros [|k] q Hk; cbn in Hk.
      * injection Hk as <-. reflexivity.
      * rewrite (Hflags k q Hk). destruct (decide (k = 0)); reflexivity.
    + rewrite Hverdict. cbn. rewrite Hfree. reflexivity.
    + intros [|k] q Hk Hlast; cbn in Hk, Hlast.
      * injection Hk as <-. exact Hfree.
      * apply (Hbefore k q Hk). lia.
    + rewrite Hz. reflexivity.
    + rewrite Hor. reflexivity.
  - exists [(moved, fetch_data)]. cbn. rewrite Hfree.
    repeat split; try lia;
      intros [|k] q Hk; cbn in Hk; try discriminate;
      try (intros Hlast; cbn in Hlast; lia);
      injection Hk as <-; reflexivity.
Qed.

(** With collision checks disabled the look-ahead answers true without
    asking the checker or moving the pose.  Otherwise it asks the checker
    at most [max_cycle_count] times, requesting fresh data on the first
    query only; it stops at the first query the checker rejects, and its
    verdict is true exactly when no query was rejected.  It never changes
    the height or the orientation of the pose it is given. *)
Theorem isCollisionFree_queries (this : DriveOnHeadingRun D) (env : Collaborators D)
    (distance : D) (cmd_vel : Twist D) (pose : Pose D) :
  (command_disable_collision_checks_ this = true →
   isCollisionFree getYaw this env distance cmd_vel pose = (true, pose, [])) ∧
  length (isCollisionFree getYaw this env distance cmd_vel pose).2
    ≤ Z.to_nat (max_cycle_count this) ∧
  (∀ k q, (isCollisionFree getYaw this env distance cmd_vel pose).2 !! k = Some q →
     q.2 = bool_decide (k = 0)) ∧
  (isCollisionFree getYaw this env distance cmd_vel pose).1.1
    = forallb (λ q, checkCollisionFree env q.1 q.2)
        (isCollisionFree getYaw this env distance cmd_vel pose).2 ∧
  (∀ k q, (isCollisionFree getYaw this env distance cmd_vel pose).2 !! k = Some q →
     S k < length (isCollisionFree getYaw this env distance cmd_vel pose).2 →
     checkCollisionFree env q.1 q.2 = true) ∧
  point_z (position (isCollisionFree getYaw this env distance cmd_vel pose).1.2)
    = point_z (position pose) ∧
  orientation (isCollisionFree getYaw this env distance cmd_vel pose).1.2
    = orientation pose.
Proof.
  unfold isCollisionFree.
  destruct (command_disable_collision_checks_ this).
  { cbn. repeat split; try lia; intros k q Hk; discriminate. }
  destruct (isCollisionFree_loop_spec this env cmd_vel pose (getYaw (orientation pose))
              (fsub (c_abs (command_x_ this)) distance)
              (Z.to_nat (max_cycle_count this)) 0 true pose [])
    as (asked & Hq & Hlen & Hflags & Hverdict & Hbefore & Hz & Hor).
  rewrite Hq, Hverdict. cbn [app].
  split; [discriminate|]. split; [exact Hlen|]. split; [|auto].
  intros k q Hk. rewrite (Hflags k q Hk).
  destruct (decide (k = 0)); [rewrite bool_decide_eq_true_2|rewrite bool_decide_eq_false_2];
    auto.
Qed.

End CollisionLookAhead.

(** ** DriveOnHeading: one control cycle *)

Lemma timeout_guard (remaining allowance : Z) :
  (remaining <? 0)%Z && (0 <? allowance)%Z = true ↔
  (remaining < 0)%Z ∧ (0 < allowance)%Z.
Proof. rewrite andb_true_iff, Z.ltb_lt, Z.ltb_lt. reflexivity. Qed.

Section OnCycleUpdate.
Context {D : Type} {opsD : FloatOps D} {eqD : FloatEq D} {mathD : FloatMath D}.
Context (getYaw : Quaternion D → D).

Ltac cycle_branches :=
  unfold onCycleUpdate;
  destruct ((end_time_ _ - now _ <? 0)%Z && (0 <? command_time_allowance_ _)%Z)
    eqn:Htimeout;
  [|destruct (getCurrentPose _ _) as [available current_pose];
    destruct available; cbn [negb];
    [destruct (fle (fabs (command_x_ _)) _) eqn:Hreached;
     [|destruct (isCollisionFree _ _ _ _ _ _) as [[free moved] asked];
       destruct free; cbn [negb]]|]];
  cbn [fst snd status error_code failed effects emit set_last_vel last_vel_
       configured cycle_frequency_ robot_base_frame_ command_x_ command_speed_
       command_disable_collision_checks_ command_time_allowance_ end_time_
       initial_pose_];
  rewrite <- ?app_assoc; cbn [app].

(** A cycle that answers RUNNING has published the feedback and exactly
    one velocity command, stamped with the robot base frame, whose only
    non-zero component can be the linear x, and it remembers that speed
    in [last_vel_].  A cycle with any other answer leaves [last_vel_]
    alone; what [stopRobot()] publishes on those paths is outside the
    sources and is not described here.  No cycle changes the stored
    command, the deadline or the initial pose. *)
Theorem onCycleUpdate_running_publishes_one_command
    (this : DriveOnHeadingRun D) (env : Collaborators D) :
  ∃ new,
    effects (onCycleUpdate getYaw this env).1 = effects this ++ new ∧
    (configured (onCycleUpdate getYaw this env).1 = configured this ∧
     command_x_ (onCycleUpdate getYaw this env).1 = command_x_ this ∧
     command_speed_ (onCycleUpdate getYaw this env).1 = command_speed_ this ∧
     end_time_ (onCycleUpdate getYaw this env).1 = end_time_ this ∧
     initial_pose_ (onCycleUpdate getYaw this env).1 = initial_pose_ this) ∧
    (status (onCycleUpdate getYaw this env).2 = RUNNING →
     ∃ distance cmd_vel,
       new = [PublishFeedback distance; PublishVelocity cmd_vel] ∧
       last_vel_ (onCycleUpdate getYaw this env).1 = vec_x (linear (twist cmd_vel)) ∧
       vec_y (linear (twist cmd_vel)) = flit 0%Q ∧
       vec_z (linear (twist cmd_vel)) = flit 0%Q ∧
       angular (twist cmd_vel) = zero_vector ∧
       frame_id (ts_header cmd_vel) = robot_base_frame_ this ∧
       error_code (onCycleUpdate getYaw this env).2 = NONE) ∧
    (status (onCycleUpdate getYaw this env).2 ≠ RUNNING →
     last_vel_ (onCycleUpdate getYaw this env).1 = last_vel_ this).
Proof.
  cycle_branches; eexists; (split; [reflexivity|]); (split; [auto 6|]);
    (split; [intros Hrun; try discriminate|intros Hrun; try congruence]);
    try reflexivity.
  eexists _, _. split; [reflexivity|]. cbn. auto 8.
Qed.

(** The cycle times out exactly when the deadline has passed and the time
    allowance is positive (an allowance of zero never times out); it then
    stops the robot without looking up the pose or publishing feedback.
    Every answer other than RUNNING has stopped the robot, except the
    failed pose lookup, which only logs.  Reaching the commanded distance
    publishes the feedback and stops the robot. *)
Theorem onCycleUpdate_stops_the_robot
    (this : DriveOnHeadingRun D) (env : Collaborators D) :
  ∃ new,
    effects (onCycleUpdate getYaw this env).1 = effects this ++ new ∧
    (error_code (onCycleUpdate getYaw this env).2 = TIMEOUT ↔
     (end_time_ this - now env < 0)%Z ∧ (0 < command_time_allowance_ this)%Z) ∧
    (error_code (onCycleUpdate getYaw this env).2 = TIMEOUT →
     ∃ message, new = [StopRobot; Logged WARN message]) ∧
    (error_code (onCycleUpdate getYaw this env).2 = TF_ERROR →
     ∃ message, new = [Logged ERROR message]) ∧
    (status (onCycleUpdate getYaw this env).2 = SUCCEEDED →
     ∃ distance, new = [PublishFeedback distance; StopRobot]) ∧
    (status (onCycleUpdate getYaw this env).2 ≠ RUNNING →
     (StopRobot ∈ new ↔ error_code (onCycleUpdate getYaw this env).2 ≠ TF_ERROR)).
Proof.
  pose proof (timeout_guard (end_time_ this - now env) (command_time_allowance_ this))
    as Hguard.
  cycle_branches; eexists; (split; [reflexivity|]).
  - (* timed out *)
    split; [split; [intros _; apply Hguard; reflexivity|reflexivity]|].
    split; [eauto|]. split; [discriminate|]. split; [discriminate|].
    intros _. split; [discriminate|]. intros _. apply elem_of_cons. auto.
  - (* distance reached *)
    split; [split; [discriminate|intros Hlate; apply Hguard in Hlate; discriminate]|].
    split; [discriminate|]. split; [discriminate|]. split; [eauto|].
    intros _. split; [discriminate|]. intros _.
    rewrite !elem_of_cons. auto.
  - (* running *)
    split; [split; [discriminate|intros Hlate; apply Hguard in Hlate; discriminate]|].
    split; [discriminate|]. split; [discriminate|]. split; [discriminate|].
    intros Hstatus. congruence.
  - (* collision ahead *)
    split; [split; [discriminate|intros Hlate; apply Hguard in Hlate; discriminate]|].
    split; [discriminate|]. split; [discriminate|]. split; [discriminate|].
    intros _. split; [discriminate|]. intros _.
    rewrite !elem_of_cons. auto.
  - (* pose not available *)
    split; [split; [discriminate|intros Hlate; apply Hguard in Hlate; discriminate]|].
    split; [discriminate|]. split; [eauto|]. split; [discriminate|].
    intros _. split; [|congruence].
    rewrite !elem_of_cons, elem_of_nil. intros [?|[]]; discriminate.
Qed.

End OnCycleUpdate.

Example drive_on_heading_run_values :
  status (onRun idle_run clear_world one_metre_ahead).2 = SUCCEEDED ∧
  status (onRun idle_run clear_world
            {| target := {| point_x := 1%Q; point_y := 0%Q; point_z := 0%Q |};
               speed := (-1 # 2)%Q; time_allowance := 0;
               disable_collision_checks := false |}).2 = FAILED ∧
  (onCycleUpdate QMath.getYaw (onRun idle_run clear_world one_metre_ahead).1
     clear_world).2
    = {| status := RUNNING; error_code := NONE; error_msg := "" |} ∧
  last_vel_ (onCycleUpdate QMath.getYaw (onRun idle_run clear_world one_metre_ahead).1
               clear_world).1 = (1 # 4)%Q ∧
  length (isCollisionFree QMath.getYaw (onRun idle_run clear_world one_metre_ahead).1
            clear_world 0%Q
            {| linear := {| vec_x := (1 # 4)%Q; vec_y := 0%Q; vec_z := 0%Q |};
               angular := {| vec_x := 0%Q; vec_y := 0%Q; vec_z := 0%Q |} |}
            (pose_at 0%Q 0%Q)).2 = 20 ∧
  error_code (onCycleUpdate QMath.getYaw (onRun idle_run clear_world one_metre_ahead).1
                blocked_world).2 = COLLISION_AHEAD ∧
  error_code (onCycleUpdate QMath.getYaw (onRun idle_run clear_world one_metre_ahead).1
                {| now := 10000000001; now_stamp := 10000000001;
                   getCurrentPose _ := (true, stamped_at 0%Q 0%Q);
                   checkCollisionFree _ _ := true |}).2 = TIMEOUT.
Proof. repeat split; vm_compute; reflexivity. Qed.

